(** * VIZZIO ChatBot: connection registry, message log, auto-responder

    A shallow embedding of [packages/vizzio-chatbot/chatbot.py].

    Python [str] values are modelled as [string] (their UTF-8 bytes),
    the two module-level lists [messages] and [active_connections] as
    fields of an explicit program state, and the handlers as
    computations in a state-and-exception monad: a raised Python
    exception keeps every mutation made before it.

    A handler is run from its call to its return (or to the point
    where it waits for the next frame) with no other task scheduled
    in between; what it reads from outside (identifiers, the clock,
    whether a send succeeds, the frames that arrive) is an input.
    The [print] calls and [websocket.accept()] are left out. *)

From Stdlib Require Import List String Ascii ZArith Bool Arith Lia DecimalString.
From Stdlib Require Import Sorted DecimalNat.
Import ListNotations.
Open Scope string_scope.

(** ** Python string operations *)

Module PyStr.

(** [str.lower], on the ASCII letters.  The keywords the
    responder looks for are ASCII and UTF-8 keeps the bytes below 128
    for ASCII, so a keyword occurs in the bytes exactly when it occurs
    in the text.  Of the letters outside ASCII that Python also
    lowers, two give an ASCII letter: U+212A gives k, which is in no
    keyword, and U+0130 gives i followed by U+0307, where every
    keyword with an i goes on with an l. *)
Definition lower_ascii (c : ascii) : ascii :=
  let n := nat_of_ascii c in
  if ((65 <=? n) && (n <=? 90))%nat then ascii_of_nat (n + 32) else c.

(** The capital of an ASCII letter. *)
Definition upper_ascii (c : ascii) : ascii :=
  let n := nat_of_ascii c in
  if ((97 <=? n) && (n <=? 122))%nat then ascii_of_nat (n - 32) else c.

Fixpoint lower (s : string) : string :=
  match s with
  | EmptyString => EmptyString
  | String c t => String (lower_ascii c) (lower t)
  end.

(** [s.isascii()]: no byte of [s] is 128 or above. *)
Fixpoint isascii (s : string) : bool :=
  match s with
  | EmptyString => true
  | String c t => (nat_of_ascii c <? 128)%nat && isascii t
  end.

(** [s.upper()] for a text [s] of ASCII characters: letter by letter.
    It is used on such texts only, see [str_upper]. *)
Fixpoint ascii_upper (s : string) : string :=
  match s with
  | EmptyString => EmptyString
  | String c t => String (upper_ascii c) (ascii_upper t)
  end.

(** [startswith p s] *)
Fixpoint startswith (p s : string) : bool :=
  match p, s with
  | EmptyString, _ => true
  | String a p', String b s' => Ascii.eqb a b && startswith p' s'
  | String _ _, EmptyString => false
  end.

(** [sub in s]: the substring test of Python's [in] on strings. *)
Fixpoint contains (sub s : string) : bool :=
  startswith sub s ||
  match s with
  | EmptyString => false
  | String _ t => contains sub t
  end.

(** What [in] means: [sub] occurs somewhere inside [s]. *)
Definition occurs_in (sub s : string) : Prop :=
  exists pre post, s = pre ++ sub ++ post.

(** The double-quote character, for templates that contain it. *)
Definition dq : string := String "034"%char EmptyString.

End PyStr.

(** ** Data model *)

(** [class ChatMessage(BaseModel)].  The field [type] is named
    [type_] here. *)
Record ChatMessage := mkChatMessage {
  id : string;
  sender : string;
  content : string;
  timestamp : string;
  read : bool;
  status : string;
  type_ : string;
  metadata : option (list (string * string))
}.

(** ** The auto-responder's reply table

    The [if]/[elif] chain of [handle_bot_response], first match wins.
    It yields the pair [(response, msg_type)]. *)

Module Templates.
Import PyStr.

Definition builds : string :=
"📊 **Status de Builds**

✅ CI/CD Pipeline (main): SUCCESS
⏱️ Duração: 2m 15s
🧪 Testes: 50/50 passed
📈 Coverage: 85%

✅ Release (v1.0.0): SUCCESS
⏱️ Publicado no crates.io

⚠️ Deploy (develop): RUNNING...
⏳ Tempo decorrido: 1m 30s".

Definition errors : string :=
"❌ **Erros Detectados**

🔴 Deploy (feature/new-api): FAILED

Erro:
```
Test failed: authentication_test
Timeout after 5000ms
```

Arquivo: src/auth.rs:145

Solução sugerida:
Ajuste o timeout ou revise a lógica de autenticação.".

Definition successes : string :=
"✅ **Todos os Builds Passaram!**

🏆 Taxa de Sucesso: 96.67%
📈 Tendência: +2.3% desde ontem

🚀 Últimas releases:
• v2.1.0 - Released 2h ago
• v2.0.9 - Released 1d ago
• v2.0.8 - Released 2d ago

Parabéns! 🎉".

Definition help : string :=
"📚 Aqui estão os comandos disponíveis:

• **build status** - Ver status dos builds
• **erros** - Listar erros recentes
• **success** - Mostrar builds bem-sucedidos
• **deploy** - Status de deployments
• **metrics** - Métricas gerais".

Definition greeting : string :=
"👋 Oi! Sou o VIZZIO Bot. Posso ajudar com:

🔍 **build status** - Ver status dos builds
⚠️ **erros** - Listar erros recentes
✅ **success** - Mostrar builds bem-sucedidos
📊 **metrics** - Métricas gerais
🚀 **deploy** - Status de deployments

Tente: " ++ dq ++ "build status" ++ dq ++ ", " ++ dq ++ "erros" ++ dq
     ++ ", " ++ dq ++ "success" ++ dq ++ " ".

End Templates.

Definition bot_reply (user_message : string) : string * string :=
  let msg_lower := PyStr.lower user_message in
  if PyStr.contains "build" msg_lower || PyStr.contains "status" msg_lower then
    (Templates.builds, "notification")
  else if PyStr.contains "erro" msg_lower || PyStr.contains "fail" msg_lower then
    (Templates.errors, "alert")
  else if PyStr.contains "sucesso" msg_lower || PyStr.contains "success" msg_lower then
    (Templates.successes, "success")
  else if PyStr.contains "help" msg_lower || PyStr.contains "ajuda" msg_lower
          || PyStr.contains "?" user_message then
    (Templates.help, "text")
  else
    (Templates.greeting, "text").

(** ** Values decoded from JSON

    What [json.loads] and the request body of [notify_build] hand to
    the program.  A float is kept as the text of its literal. *)

#[local] Set Warnings "-register-all".

Inductive json :=
| JNull
| JBool (b : bool)
| JInt (z : Z)
| JFloat (literal : string)
| JStr (s : string)
| JList (items : list json)
| JDict (items : list (string * json)).

(** [d.get(key, default)] on the items of a dict (its keys are
    distinct; the first item with the key is the one). *)
Fixpoint dict_get (key : string) (default : json)
         (d : list (string * json)) : json :=
  match d with
  | [] => default
  | (k, v) :: rest => if String.eqb k key then v else dict_get key default rest
  end.

(** [key in d] *)
Fixpoint dict_has (key : string) (d : list (string * json)) : bool :=
  match d with
  | [] => false
  | (k, _) :: rest => String.eqb k key || dict_has key rest
  end.

(** [v == s] for a decoded value [v] and a string literal [s]. *)
Definition json_eq_str (v : json) (s : string) : bool :=
  match v with
  | JStr s' => String.eqb s' s
  | _ => false
  end.

(** [class BuildNotification(BaseModel)] *)
Module Build.
Record Notification := mkNotification {
  buildId : string;
  workflow : string;
  status : string;
  details : list (string * json)
}.
End Build.

(** ** Environment and program state *)

(** A [WebSocket] object, compared by identity. *)
Definition WebSocket := nat.

(** What the handlers read from outside the program.  The index is the
    number of earlier readings of the same kind. *)
Record Env := mkEnv {
  (** [uuid.uuid4()] as text *)
  uuid4 : nat -> string;
  (** [datetime.now().isoformat()] *)
  now_isoformat : nat -> string;
  (** whether [connection.send_json] returns (true) or raises (false)
      during the given pass of [broadcast] *)
  send_json_ok : nat -> WebSocket -> bool;
  (** the text an f-string gives for a float, a list or a dict *)
  format_other : json -> string;
  (** [s.upper()] for a text [s] that has characters outside ASCII,
      where Python follows the Unicode case tables *)
  upper_other : string -> string
}.

(** Effects in the order the program performs them.  A send carries
    the entry whose [dict()] is the [message] of the frame
    [{"type": "new-message", "message": ...}]. *)
Inductive event :=
| EvReceive (websocket : WebSocket) (* [receive_text] returned a frame *)
| EvAppend (m : ChatMessage)        (* [messages.append(m)] *)
| EvSend (connection : WebSocket) (m : ChatMessage) (delivered : bool)
    (* [send_json({"type": "new-message", "message": m})] *)
| EvSleep (seconds : nat).          (* [asyncio.sleep(seconds)] *)

Record State := mkState {
  messages : list ChatMessage;
  active_connections : list WebSocket;
  created : nat;      (* [ChatMessage] objects built so far *)
  passes : nat;       (* calls of [broadcast] so far *)
  trace : list event
}.

Definition initial : State := mkState [] [] 0 0 [].

(** Replacing the registry of a state. *)
Definition with_connections (st : State) (l : list WebSocket) : State :=
  mkState (messages st) l (created st) (passes st) (trace st).

(** ** Exceptions and the handler monad *)

Inductive exn :=
| JSONDecodeError
| AttributeError
| ValidationError
| ValueError
| WebSocketDisconnect.

Definition exn_eqb (a b : exn) : bool :=
  match a, b with
  | JSONDecodeError, JSONDecodeError
  | AttributeError, AttributeError
  | ValidationError, ValidationError
  | ValueError, ValueError
  | WebSocketDisconnect, WebSocketDisconnect => true
  | _, _ => false
  end.

Inductive outcome (A : Type) :=
| Ok (a : A)
| Raised (e : exn).
Arguments Ok {A} a.
Arguments Raised {A} e.

Definition M (A : Type) : Type := State -> outcome A * State.

Definition ret {A} (a : A) : M A := fun st => (Ok a, st).
Definition raise {A} (e : exn) : M A := fun st => (Raised e, st).
Definition bind {A B} (m : M A) (k : A -> M B) : M B :=
  fun st =>
    match m st with
    | (Ok a, st') => k a st'
    | (Raised e, st') => (Raised e, st')
    end.

(** [try: body  except e: handler] *)
Definition try_except {A} (body : M A) (e : exn) (handler : M A) : M A :=
  fun st =>
    match body st with
    | (Raised e', st') => if exn_eqb e' e then handler st' else (Raised e', st')
    | r => r
    end.

Definition get_state : M State := fun st => (Ok st, st).
Definition modify (f : State -> State) : M unit := fun st => (Ok tt, f st).

Notation "x <- m ;; k" := (bind m (fun x => k))
  (at level 61, m at next level, right associativity).
Notation "m ;; k" := (bind m (fun _ => k))
  (at level 61, right associativity).

Definition emit (e : event) : M unit :=
  modify (fun st => mkState (messages st) (active_connections st)
                            (created st) (passes st) (trace st ++ [e])).

Definition set_connections (l : list WebSocket) : M unit :=
  modify (fun st => with_connections st l).

(** [messages.append(m)] *)
Definition messages_append (m : ChatMessage) : M unit :=
  modify (fun st => mkState (messages st ++ [m]) (active_connections st)
                            (created st) (passes st)
                            (trace st ++ [EvAppend m])).

(** ** Connection registry *)

(** [l.remove(x)]: drops the first item equal to [x]; [None] stands for
    the [ValueError] Python raises when there is none. *)
Fixpoint list_remove (x : WebSocket) (l : list WebSocket)
  : option (list WebSocket) :=
  match l with
  | [] => None
  | y :: rest =>
      if Nat.eqb y x then Some rest
      else match list_remove x rest with
           | Some rest' => Some (y :: rest')
           | None => None
           end
  end.

(** [active_connections.append(websocket)] *)
Definition register (websocket : WebSocket) : M unit :=
  st <- get_state ;;
  set_connections (active_connections st ++ [websocket]).

(** [active_connections.remove(websocket)] *)
Definition unregister (websocket : WebSocket) : M unit :=
  st <- get_state ;;
  match list_remove websocket (active_connections st) with
  | Some l => set_connections l
  | None => raise ValueError
  end.

(** First loop of [broadcast]: one [send_json] per connection, a
    failure is caught and the connection noted in [disconnected]. *)
Fixpoint send_each (ok : WebSocket -> bool) (message : ChatMessage)
         (conns : list WebSocket) : list event * list WebSocket :=
  match conns with
  | [] => ([], [])
  | connection :: rest =>
      let '(evs, disconnected) := send_each ok message rest in
      if ok connection
      then (EvSend connection message true :: evs, disconnected)
      else (EvSend connection message false :: evs,
            connection :: disconnected)
  end.

(** Second loop of [broadcast]. *)
Fixpoint remove_each (disconnected : list WebSocket) : M unit :=
  match disconnected with
  | [] => ret tt
  | conn :: rest => unregister conn ;; remove_each rest
  end.

(** What [receive_text] brings: a text frame, given by what
    [json.loads] makes of it, or the peer's disconnect. *)
Inductive text := NotJSON | JSON (v : json).
Inductive inbound := Frame (data : text) | Disconnect.

(** How far a session got on the frames it was given. *)
Inductive session :=
| Receiving   (* suspended in [receive_text], waiting for a frame *)
| Closed.     (* the handler returned after the disconnect *)

(** A [str] field of a pydantic model takes a string and refuses the
    other decoded values.  (pydantic 1 turns a number into text; the
    handler then fails one step later, at [user_message.lower()].) *)
Definition validate_str (v : json) : M string :=
  match v with
  | JStr s => ret s
  | _ => raise ValidationError
  end.

Section Handlers.

Variable env : Env.

(** [broadcast(message)]: send to every connection, then drop the
    connections whose send raised. *)
Definition broadcast (message : ChatMessage) : M unit :=
  st <- get_state ;;
  let '(evs, disconnected) :=
    send_each (send_json_ok env (passes st)) message
              (active_connections st) in
  modify (fun st => mkState (messages st) (active_connections st)
                            (created st) (S (passes st))
                            (trace st ++ evs)) ;;
  remove_each disconnected.

(** The [ChatMessage(...)] constructor calls.  The arguments are
    evaluated first (the id is [prefix-{uuid.uuid4()}], the timestamp
    the current time), then the model validates its [content: str]
    field. *)
Definition new_message (prefix sender : string) (content : json)
           (read : bool) (status type_ : string)
           (metadata : option (list (string * string))) : M ChatMessage :=
  st <- get_state ;;
  modify (fun st => mkState (messages st) (active_connections st)
                            (S (created st)) (passes st) (trace st)) ;;
  content <- validate_str content ;;
  ret (mkChatMessage (prefix ++ "-" ++ uuid4 env (created st))
                     sender content (now_isoformat env (created st))
                     read status type_ metadata).

(** ** Bot responses *)

(** [user_message.lower()] exists on a string only. *)
Definition handle_bot_response (user_message : json) : M unit :=
  user_message <- match user_message with
                  | JStr s => ret s
                  | _ => raise AttributeError
                  end ;;
  let '(response, msg_type) := bot_reply user_message in
  bot_msg <- new_message "msg" "bot" (JStr response) false "delivered"
                         msg_type None ;;
  messages_append bot_msg ;;
  broadcast bot_msg.

(** ** The websocket session *)

Definition receive_text (websocket : WebSocket) (i : inbound) : M text :=
  match i with
  | Frame data => emit (EvReceive websocket) ;; ret data
  | Disconnect => raise WebSocketDisconnect
  end.

Definition json_loads (data : text) : M json :=
  match data with
  | NotJSON => raise JSONDecodeError
  | JSON v => ret v
  end.

(** [message_data.get(key, default)]: only a dict has [get]. *)
Definition py_get (message_data : json) (key : string) (default : json)
  : M json :=
  match message_data with
  | JDict d => ret (dict_get key default d)
  | _ => raise AttributeError
  end.

(** Body of the [while True] loop, after [receive_text]. *)
Definition on_text (data : text) : M unit :=
  message_data <- json_loads data ;;
  ty <- py_get message_data "type" JNull ;;
  if json_eq_str ty "send-message" then
    content <- py_get message_data "content" (JStr "") ;;
    user_msg <- new_message "msg" "user" content true "sent" "text" None ;;
    messages_append user_msg ;;
    broadcast user_msg ;;
    emit (EvSleep 1) ;;
    handle_bot_response content
  else ret tt.

(** [while True: ...] run on the frames that have arrived. *)
Fixpoint receive_loop (websocket : WebSocket) (inbox : list inbound)
  : M session :=
  match inbox with
  | [] => ret Receiving
  | i :: rest =>
      data <- receive_text websocket i ;;
      on_text data ;;
      receive_loop websocket rest
  end.

(** [websocket_endpoint(websocket)] on the frames in [inbox]: the
    [except] clause takes [WebSocketDisconnect] and nothing else. *)
Definition websocket_endpoint (websocket : WebSocket)
           (inbox : list inbound) : M session :=
  register websocket ;;
  try_except (receive_loop websocket inbox)
             WebSocketDisconnect
             (unregister websocket ;; ret Closed).


(** ** API routes *)

(** Text an f-string puts for a value. *)
Definition format_value (v : json) : string :=
  match v with
  | JStr s => s
  | JInt z => NilZero.string_of_int (Z.to_int z)
  | JBool true => "True"
  | JBool false => "False"
  | JNull => "None"
  | other => format_other env other
  end.

(** [s.upper()]: the capitals of the letters of an ASCII text; for a
    text with other characters, what Python's case tables give. *)
Definition str_upper (s : string) : string :=
  if PyStr.isascii s then PyStr.ascii_upper s else upper_other env s.

(** [{...}.get(key, default)] on a table of string literals. *)
Fixpoint table_get (key default : string) (table : list (string * string))
  : string :=
  match table with
  | [] => default
  | (k, v) :: rest =>
      if String.eqb k key then v else table_get key default rest
  end.

(** [notify_build(notification)], [POST /api/chat/notify]. *)
Definition notify_build (notification : Build.Notification)
  : M (list (string * json)) :=
  let emoji :=
    table_get (Build.status notification) "📢"
              [("success", "✅"); ("failure", "❌");
               ("running", "🔄"); ("cancelled", "⚠️")] in
  let detail key default :=
    format_value (dict_get key default (Build.details notification)) in
  let content :=
    emoji ++ " **" ++ Build.workflow notification ++ "** - "
      ++ str_upper (Build.status notification) ++ "

📋 Build ID: " ++ Build.buildId notification ++ "
⏱️ Duração: " ++ detail "duration" (JStr "N/A") ++ "s
🧪 Testes: " ++ detail "testsPassed" (JInt 0) ++ "/"
      ++ detail "testsRun" (JInt 0) ++ " passed
📈 Coverage: " ++ detail "coverage" (JInt 0) ++ "%" in
  let msg_type :=
    table_get (Build.status notification) "notification"
              [("failure", "alert"); ("success", "success")] in
  bot_msg <- new_message "notif" "bot" (JStr content) false "delivered"
               msg_type
               (Some [("buildId", Build.buildId notification);
                      ("workflow", Build.workflow notification)]) ;;
  messages_append bot_msg ;;
  broadcast bot_msg ;;
  ret [("success", JBool true)].

End Handlers.

(** [l[start:]] for any integer [start]: a negative one counts from
    the end, and both are clamped to the list. *)
Definition slice_from {A} (start : Z) (l : list A) : list A :=
  let n := Z.of_nat (List.length l) in
  let start' := if (start <? 0)%Z then Z.max (start + n) 0
                else Z.min start n in
  skipn (Z.to_nat start') l.

(** [get_messages(limit)] returns [messages[-limit:]]; the query
    parameter defaults to 50. *)
Definition get_messages (limit : option Z) (st : State) : list ChatMessage :=
  let limit := match limit with Some n => n | None => 50%Z end in
  slice_from (- limit) (messages st).

(** [sum(1 for msg in messages if not msg.read and msg.sender == "bot")] *)
Definition get_unread (st : State) : list (string * json) :=
  let unread :=
    list_sum (map (fun _ => 1)
                  (filter (fun msg => negb (read msg)
                                      && String.eqb (sender msg) "bot")
                          (messages st))) in
  [("unread", JInt (Z.of_nat unread))].

(** ** [packages/remove_profiles.py]

    The text of a [Cargo.toml] as Python has it after reading: a list
    of code points, line ends already turned into U+000A by the text
    mode of [open]. *)

Module Profiles.
Local Open Scope list_scope.
Local Open Scope N_scope.

Definition text := list N.

Definition nl : N := 10.
Definition lbracket : N := 91.
Definition rbracket : N := 93.

(** An ASCII literal as text. *)
Definition of_string (s : string) : text :=
  map N_of_ascii (list_ascii_of_string s).

Fixpoint text_eqb (a b : text) : bool :=
  match a, b with
  | [], [] => true
  | x :: a', y :: b' => N.eqb x y && text_eqb a' b'
  | _, _ => false
  end.

(** The longest prefix of characters in a class, and what follows. *)
Fixpoint take_while (p : N -> bool) (l : text) : text :=
  match l with
  | [] => []
  | c :: t => if p c then c :: take_while p t else []
  end.

Fixpoint drop_while (p : N -> bool) (l : text) : text :=
  match l with
  | [] => []
  | c :: t => if p c then drop_while p t else l
  end.

(** [l] without its prefix [p], when it starts with [p]. *)
Fixpoint strip_prefix (p l : text) : option text :=
  match p, l with
  | [], _ => Some l
  | a :: p', b :: l' => if N.eqb a b then strip_prefix p' l' else None
  | _ :: _, [] => None
  end.

(** [re.sub(pattern, repl, l)] for a pattern that matches no empty
    text: [matcher l] is what follows the match of the pattern at the
    start of [l], if it matches there.  The scan goes left to right;
    a match is replaced and the scan resumes behind it, a character
    where nothing matches is copied.  [fuel] bounds the positions
    visited; the length of the text is enough
    ([ProfilesFacts.re_sub_unfold]). *)
Fixpoint re_sub_fuel (matcher : text -> option text) (repl : text)
         (fuel : nat) (l : text) : text :=
  match fuel with
  | O => []
  | S fuel' =>
      match l with
      | [] => []
      | c :: t =>
          match matcher l with
          | Some rest => repl ++ re_sub_fuel matcher repl fuel' rest
          | None => c :: re_sub_fuel matcher repl fuel' t
          end
      end
  end.

Definition re_sub (matcher : text -> option text) (repl l : text) : text :=
  re_sub_fuel matcher repl (List.length l) l.

(** The pattern [\n\[profile\.[^\]]+\][^\[]*]: the header line start,
    a name of one or more characters other than a closing bracket (as
    many as there are), the closing bracket, then everything up to
    the next opening bracket or the end. *)
Definition profile_header : text := nl :: of_string "[profile.".

Definition match_profile (l : text) : option text :=
  match strip_prefix profile_header l with
  | None => None
  | Some l1 =>
      let not_rbracket c := negb (N.eqb c rbracket) in
      match take_while not_rbracket l1, drop_while not_rbracket l1 with
      | _ :: _, c :: l2 =>
          if N.eqb c rbracket
          then Some (drop_while (fun c => negb (N.eqb c lbracket)) l2)
          else None
      | _, _ => None
      end
  end.

(** The pattern [\n\n\n+]: three line ends and all that follow. *)
Definition match_blank_lines (l : text) : option text :=
  match l with
  | a :: b :: c :: t =>
      if N.eqb a nl && N.eqb b nl && N.eqb c nl
      then Some (drop_while (fun c => N.eqb c nl) t)
      else None
  | _ => None
  end.

(** The two substitutions of [remove_profile_sections]. *)
Definition drop_profiles (l : text) : text := re_sub match_profile [] l.
Definition squeeze_blank_lines (l : text) : text :=
  re_sub match_blank_lines [nl; nl] l.

(** The characters [str.rstrip()] takes off. *)
Definition isspace (c : N) : bool :=
  (9 <=? c) && (c <=? 13) || (28 <=? c) && (c <=? 32)
  || N.eqb c 133 || N.eqb c 160 || N.eqb c 5760
  || (8192 <=? c) && (c <=? 8202)
  || N.eqb c 8232 || N.eqb c 8233 || N.eqb c 8239 || N.eqb c 8287
  || N.eqb c 12288.

Definition rstrip (l : text) : text := rev (drop_while isspace (rev l)).

(** [remove_profile_sections(file_path)] on the content read from the
    file: the text written back, if any, and the returned flag. *)
Definition remove_profile_sections (content : text) : option text * bool :=
  let original_content := content in
  let content := drop_profiles content in
  let content := squeeze_blank_lines content in
  if negb (text_eqb content original_content)
  then (Some (rstrip content ++ [nl]), true)
  else (None, false).

(** Three line ends in a row. *)
Definition blank_run : text := [nl; nl; nl].

(** [l] starts with [p]; [sub] is found in [l]. *)
Definition starts_with (p l : text) : bool :=
  match strip_prefix p l with Some _ => true | None => false end.

Fixpoint found (sub l : text) : bool :=
  starts_with sub l ||
  match l with
  | [] => false
  | _ :: t => found sub t
  end.

(** A substitution that puts less than it takes. *)
Definition contracting (matcher : text -> option text) (repl : text) : Prop :=
  forall l rest,
    matcher l = Some rest ->
    (List.length repl + List.length rest < List.length l)%nat.

(** A matcher that consumes at least one character. *)
Definition shrinking (matcher : text -> option text) : Prop :=
  forall l rest,
    matcher l = Some rest -> (List.length rest < List.length l)%nat.

(** [sub] occurs somewhere in [l]. *)
Definition occurs (sub l : text) : Prop :=
  exists pre post, l = pre ++ sub ++ post.

(** A profile section as the pattern takes it: the header start, a
    name without closing bracket, the closing bracket and a body
    without opening bracket that runs up to the next opening bracket
    or to the end. *)
Definition section_of (name body : text) : text :=
  profile_header ++ name ++ rbracket :: body.

Definition section_shape (name body rest : text) : Prop :=
  name <> []
  /\ Forall (fun c => c <> rbracket) name
  /\ Forall (fun c => c <> lbracket) body
  /\ (rest = [] \/ exists t, rest = lbracket :: t).

(** Lines, each with its line end. *)
Definition lines (xs : list string) : text :=
  List.concat (map (fun s => of_string s ++ [nl]) xs).

(** A manifest with two profile sections, one after the other. *)
Definition two_profiles : text :=
  lines ["[package]"; "name = demo"; ""; "[profile.dev]"; "opt-level = 0"; "";
         "[profile.release]"; "opt-level = 3"]%string.

End Profiles.

(** ** The responder's conditions, as propositions

    The five tests of the chain in [handle_bot_response], read as
    statements about where a keyword occurs. *)

Section Conditions.
Import PyStr.
Variable user_message : string.
Let msg_lower := lower user_message.

Definition asks_builds : Prop :=
  occurs_in "build" msg_lower \/ occurs_in "status" msg_lower.
Definition asks_errors : Prop :=
  occurs_in "erro" msg_lower \/ occurs_in "fail" msg_lower.
Definition asks_successes : Prop :=
  occurs_in "sucesso" msg_lower \/ occurs_in "success" msg_lower.
Definition asks_help : Prop :=
  (occurs_in "help" msg_lower \/ occurs_in "ajuda" msg_lower)
  \/ occurs_in "?" user_message.

End Conditions.

(** ** What a pass of [broadcast] and a handled message leave behind

    The states and entries the properties below compare the handlers
    with, written out field by field. *)

Section Expected.
Variable env : Env.

(** One [send_json] per connection, in registry order. *)
Definition pass_events (ok : WebSocket -> bool) (m : ChatMessage)
           (conns : list WebSocket) : list event :=
  map (fun c => EvSend c m (ok c)) conns.

(** After pass number [passes st] has sent [m]. *)
Definition after_broadcast (m : ChatMessage) (st : State) : State :=
  let ok := send_json_ok env (passes st) in
  mkState (messages st) (filter ok (active_connections st))
          (created st) (S (passes st))
          (trace st ++ pass_events ok m (active_connections st)).

(** After the entry [m] was built, appended and broadcast. *)
Definition after_publish (m : ChatMessage) (st : State) : State :=
  after_broadcast m
    (mkState (messages st ++ [m]) (active_connections st)
             (S (created st)) (passes st) (trace st ++ [EvAppend m])).

(** The entry built for a user's text when [k] entries exist. *)
Definition user_entry (k : nat) (content : string) : ChatMessage :=
  mkChatMessage ("msg-" ++ uuid4 env k) "user" content
                (now_isoformat env k) true "sent" "text" None.

(** The entry built for the bot's answer to [user_message]. *)
Definition bot_entry (k : nat) (user_message : string) : ChatMessage :=
  mkChatMessage ("msg-" ++ uuid4 env k) "bot"
                (fst (bot_reply user_message))
                (now_isoformat env k) false "delivered"
                (snd (bot_reply user_message)) None.

Definition after_sleep (seconds : nat) (st : State) : State :=
  mkState (messages st) (active_connections st) (created st) (passes st)
          (trace st ++ [EvSleep seconds]).

Definition after_receive (websocket : WebSocket) (st : State) : State :=
  mkState (messages st) (active_connections st) (created st) (passes st)
          (trace st ++ [EvReceive websocket]).

(** After one [send-message] frame with text [content] was handled. *)
Definition after_send_message (content : string) (st : State) : State :=
  let st1 := after_publish (user_entry (created st) content) st in
  let st2 := after_sleep 1 st1 in
  after_publish (bot_entry (created st2) content) st2.

End Expected.

(** The effects of handling one [send-message] frame, in order:
    the user's entry and its pass, the pause, the bot's entry and its
    pass over the connections the first pass left. *)
Definition send_message_events (env : Env) (content : string) (st : State)
  : list event :=
  let u := user_entry env (created st) content in
  let b := bot_entry env (S (created st)) content in
  let ok1 := send_json_ok env (passes st) in
  let ok2 := send_json_ok env (S (passes st)) in
  [EvAppend u] ++ pass_events ok1 u (active_connections st)
    ++ [EvSleep 1; EvAppend b]
    ++ pass_events ok2 b (filter ok1 (active_connections st)).

(** ** The summary a build notification is shown as

    Workflow name, status and the four optional details, each detail
    replaced by its placeholder when the notification lacks it. *)

(** [d[key]] when present. *)
Fixpoint dict_lookup (key : string) (d : list (string * json)) : option json :=
  match d with
  | [] => None
  | (k, v) :: rest => if String.eqb k key then Some v else dict_lookup key rest
  end.

Definition status_emoji (status : string) : string :=
  if String.eqb status "success" then "✅"
  else if String.eqb status "failure" then "❌"
  else if String.eqb status "running" then "🔄"
  else if String.eqb status "cancelled" then "⚠️"
  else "📢".

Definition build_summary (env : Env) (n : Build.Notification) : string :=
  let shown key placeholder :=
    match dict_lookup key (Build.details n) with
    | Some v => format_value env v
    | None => placeholder
    end in
  status_emoji (Build.status n) ++ " **" ++ Build.workflow n ++ "** - "
    ++ str_upper env (Build.status n) ++ "

📋 Build ID: " ++ Build.buildId n ++ "
⏱️ Duração: " ++ shown "duration" "N/A" ++ "s
🧪 Testes: " ++ shown "testsPassed" "0" ++ "/" ++ shown "testsRun" "0" ++ " passed
📈 Coverage: " ++ shown "coverage" "0" ++ "%".

(** The kind a build status is shown with. *)
Definition build_kind (status : string) : string :=
  if String.eqb status "failure" then "alert"
  else if String.eqb status "success" then "success"
  else "notification".

(** ** The log, entry by entry *)

(** An entry the unread query counts. *)
Definition unread_from_bot (m : ChatMessage) : Prop :=
  read m = false /\ sender m = "bot".

(** The test of [get_unread]. *)
Definition unread_from_botb (m : ChatMessage) : bool :=
  negb (read m) && String.eqb (sender m) "bot".

(** [counted log n]: [log] grew from the empty log by appends, [n] of
    them of an unread bot entry. *)
Inductive counted : list ChatMessage -> nat -> Prop :=
| counted_empty : counted [] 0
| counted_unread log n m :
    counted log n -> unread_from_bot m -> counted (log ++ [m]) (S n)
| counted_other log n m :
    counted log n -> ~ unread_from_bot m -> counted (log ++ [m]) n.

(** The last [n] entries of a log, oldest first. *)
Definition last_entries {A} (n : nat) (log : list A) : list A :=
  skipn (List.length log - n) log.

(** ** Runs of the handlers

    What the properties of whole runs are stated with: the shape of a
    logged entry, the frames a session answers or passes over, the
    entries it logs for them, and how the entries of a log are
    numbered. *)

(** After a [ChatMessage] was built and nothing else happened. *)
Definition bumped (st : State) : State :=
  mkState (messages st) (active_connections st) (S (created st))
          (passes st) (trace st).

(** The kinds of the comment on [ChatMessage.type]. *)
Definition kinds : list string := ["text"; "notification"; "alert"; "success"].

(** An entry as the handlers build it: a user's entry is read, sent
    and of kind text; a bot's entry is unread and delivered. *)
Definition entry_ok (m : ChatMessage) : Prop :=
  (sender m = "user" /\ read m = true /\ status m = "sent"
   /\ type_ m = "text" /\ metadata m = None)
  \/ (sender m = "bot" /\ read m = false /\ status m = "delivered"
      /\ In (type_ m) kinds).

(** What the loop does with a frame it gets through: an object with
    another [type] is passed over, a [send-message] with a string as
    content (or none, then the empty string) is answered. *)
Inductive handled := PassedOver | Answered (content : string).

Definition classify (i : inbound) : option handled :=
  match i with
  | Frame (JSON (JDict d)) =>
      if json_eq_str (dict_get "type" JNull d) "send-message"
      then match dict_get "content" (JStr "") d with
           | JStr c => Some (Answered c)
           | _ => None
           end
      else Some PassedOver
  | _ => None
  end.

(** The entries logged for an inbox when [k] entries were built
    before: for each answered frame the user's entry and the bot's. *)
Fixpoint conversation (env : Env) (k : nat) (inbox : list inbound)
  : list ChatMessage :=
  match inbox with
  | [] => []
  | i :: rest =>
      match classify i with
      | Some (Answered c) =>
          user_entry env k c :: bot_entry env (S k) c
            :: conversation env (S (S k)) rest
      | _ => conversation env k rest
      end
  end.

(** The entry [notify_build] builds when [k] entries exist. *)
Definition notification_entry (env : Env) (k : nat)
           (n : Build.Notification) : ChatMessage :=
  mkChatMessage ("notif-" ++ uuid4 env k) "bot" (build_summary env n)
                (now_isoformat env k) false "delivered"
                (build_kind (Build.status n))
                (Some [("buildId", Build.buildId n);
                       ("workflow", Build.workflow n)]).

(** A run added entries to the log and took none away; each entry
    added is of the handlers' shape and was sent round in a pass of
    its own. *)
Definition logged (st st' : State) : Prop :=
  exists added,
    messages st' = (messages st ++ added)%list
    /\ Forall entry_ok added
    /\ passes st' = passes st + List.length added
    /\ created st + List.length added <= created st'.

(** The frames of an inbox that are answered. *)
Definition answered (inbox : list inbound) : nat :=
  List.length
    (filter (fun i => match classify i with
                      | Some (Answered _) => true
                      | _ => false
                      end) inbox).

(** The number of entries [get_unread] counts. *)
Definition unread_count (st : State) : nat :=
  List.length (filter unread_from_botb (messages st)).

(** Entry [m] carries the [k]-th identifier drawn. *)
Definition numbered (env : Env) (m : ChatMessage) (k : nat) : Prop :=
  id m = "msg-" ++ uuid4 env k \/ id m = "notif-" ++ uuid4 env k.

(** The entries of the log carry identifiers drawn one after the
    other, all of them drawn already. *)
Definition built_in_order (env : Env) (st : State) : Prop :=
  exists ks,
    Forall2 (numbered env) (messages st) ks
    /\ StronglySorted lt ks
    /\ Forall (fun k => k < created st) ks.

(** A pass, or several, took connections out and put none in; the
    connections every send to which succeeds are all kept. *)
Definition pruned (env : Env) (before after : list WebSocket) : Prop :=
  exists keep : WebSocket -> bool,
    after = filter keep before
    /\ forall c, (forall k, send_json_ok env k c = true) -> keep c = true.

(** ** A sample run

    Connection 2 has gone away: every send to it fails.  The sample
    texts are ASCII, so [upper_other] and [format_other] are never
    consulted. *)
Module Sample.

Definition env : Env :=
  mkEnv (fun k => NilZero.string_of_uint (Nat.to_uint k))
        (fun k => "2024-05-01T12:00:0" ++ NilZero.string_of_uint (Nat.to_uint k))
        (fun _ c => negb (Nat.eqb c 2))
        (fun _ => "")
        (fun s => s).

(** The frame [{"type": "send-message", "content": c}]. *)
Definition send_message (c : string) : inbound :=
  Frame (JSON (JDict [("type", JStr "send-message"); ("content", JStr c)])).

(** Connections 1, 2 and 3 registered, nothing logged yet. *)
Definition three_connected : State := mkState [] [1; 2; 3] 0 0 [].

Definition entry (sender : string) (read : bool) : ChatMessage :=
  mkChatMessage "msg-0" sender "hi" "2024-05-01T12:00:00" read "sent"
                "text" None.

End Sample.

(** * Properties *)

(** ** Substring tests *)

Module PyStrFacts.
Import PyStr.

Lemma startswith_iff (p s : string) :
  startswith p s = true <-> exists post, s = p ++ post.
Proof.
  revert s; induction p as [|a p IH]; intros s; simpl.
  - split; [intros _; now exists s | reflexivity].
  - destruct s as [|b s].
    + split; [discriminate | intros [post H]; discriminate].
    + rewrite andb_true_iff, Ascii.eqb_eq, IH. split.
      * intros [-> [post ->]]. now exists post.
      * intros [post H]. injection H as -> ->. split; [reflexivity | now exists post].
Qed.

Lemma contains_iff (sub s : string) :
  contains sub s = true <-> occurs_in sub s.
Proof.
  unfold occurs_in. induction s as [|c s IH].
  - simpl. rewrite orb_false_r, startswith_iff. split.
    + intros [post H]. now exists "", post.
    + intros [[|a pre] [post H]]; [now exists post | discriminate].
  - cbn [contains]. rewrite orb_true_iff, startswith_iff, IH. split.
    + intros [[post H] | [pre [post H]]].
      * now exists "", post.
      * exists (String c pre), post. simpl. now rewrite H.
    + intros [[|a pre] [post H]].
      * left. now exists post.
      * right. simpl in H. injection H as -> ->. now exists pre, post.
Qed.

Lemma contains_false_iff (sub s : string) :
  contains sub s = false <-> ~ occurs_in sub s.
Proof.
  rewrite <- contains_iff. destruct (contains sub s); split; congruence.
Qed.

Lemma either_iff (a b s : string) :
  contains a s || contains b s = true <-> occurs_in a s \/ occurs_in b s.
Proof. now rewrite orb_true_iff, !contains_iff. Qed.

Lemma neither_iff (a b s : string) :
  contains a s || contains b s = false
  <-> ~ (occurs_in a s \/ occurs_in b s).
Proof.
  rewrite <- either_iff.
  destruct (contains a s || contains b s); split; congruence.
Qed.

End PyStrFacts.

(** ** The responder *)

Section Responder.
Import PyStr PyStrFacts.

Variable user_message : string.

Ltac conditions :=
  unfold asks_builds, asks_errors, asks_successes in *;
  repeat match goal with
         | H : ~ (occurs_in _ _ \/ occurs_in _ _) |- _ =>
             apply neither_iff in H
         | H : occurs_in _ _ \/ occurs_in _ _ |- _ => apply either_iff in H
         end.

Ltac chain := unfold bot_reply; cbv zeta.

Lemma reply_builds :
  asks_builds user_message ->
  bot_reply user_message = (Templates.builds, "notification").
Proof. intros H. conditions. chain. now rewrite H. Qed.

Lemma reply_errors :
  ~ asks_builds user_message -> asks_errors user_message ->
  bot_reply user_message = (Templates.errors, "alert").
Proof. intros N1 H. conditions. chain. now rewrite N1, H. Qed.

Lemma reply_successes :
  ~ asks_builds user_message -> ~ asks_errors user_message ->
  asks_successes user_message ->
  bot_reply user_message = (Templates.successes, "success").
Proof. intros N1 N2 H. conditions. chain. now rewrite N1, N2, H. Qed.

Lemma help_condition :
  contains "help" (lower user_message)
    || contains "ajuda" (lower user_message)
    || contains "?" user_message = true
  <-> asks_help user_message.
Proof.
  unfold asks_help. now rewrite orb_true_iff, either_iff, contains_iff.
Qed.

Lemma reply_help :
  ~ asks_builds user_message -> ~ asks_errors user_message ->
  ~ asks_successes user_message -> asks_help user_message ->
  bot_reply user_message = (Templates.help, "text").
Proof.
  intros N1 N2 N3 H. apply help_condition in H. conditions. chain.
  now rewrite N1, N2, N3, H.
Qed.

Lemma reply_greeting :
  ~ asks_builds user_message -> ~ asks_errors user_message ->
  ~ asks_successes user_message -> ~ asks_help user_message ->
  bot_reply user_message = (Templates.greeting, "text").
Proof.
  intros N1 N2 N3 N4.
  assert (H : contains "help" (lower user_message)
              || contains "ajuda" (lower user_message)
              || contains "?" user_message = false).
  { destruct (_ || _ || _) eqn:E; [|reflexivity].
    apply help_condition in E. contradiction. }
  conditions. chain. now rewrite N1, N2, N3, H.
Qed.

End Responder.


(** ** The registry *)

Section Registry.
Local Open Scope list_scope.

Lemma list_remove_None (x : WebSocket) (l : list WebSocket) :
  list_remove x l = None <-> ~ In x l.
Proof.
  induction l as [|y l IH]; simpl.
  - tauto.
  - destruct (Nat.eqb_spec y x) as [->|N].
    + split; [discriminate | tauto].
    + destruct (list_remove x l); split; intros H;
        try discriminate; try reflexivity; try tauto.
      exfalso. apply H. right. destruct IH as [_ IH].
      destruct (in_dec Nat.eq_dec x l) as [i|n]; [exact i|].
      specialize (IH n). discriminate.
Qed.

Lemma list_remove_first (x : WebSocket) (pre rest : list WebSocket) :
  ~ In x pre -> list_remove x (pre ++ x :: rest) = Some (pre ++ rest).
Proof.
  induction pre as [|y pre IH]; simpl; intros N.
  - now rewrite Nat.eqb_refl.
  - destruct (Nat.eqb_spec y x) as [->|_]; [tauto|].
    rewrite IH; tauto.
Qed.

Lemma list_remove_Some (x : WebSocket) (l l' : list WebSocket) :
  list_remove x l = Some l' ->
  exists pre rest, l = pre ++ x :: rest /\ ~ In x pre /\ l' = pre ++ rest.
Proof.
  revert l'. induction l as [|y l IH]; simpl; intros l' H; [discriminate|].
  destruct (Nat.eqb_spec y x) as [->|N].
  - injection H as <-. now exists [], l.
  - destruct (list_remove x l) as [r|]; [|discriminate].
    injection H as <-. destruct (IH r eq_refl) as (pre & rest & -> & Hn & ->).
    exists (y :: pre), rest. simpl. intuition congruence.
Qed.

Lemma send_each_events ok message conns :
  fst (send_each ok message conns)
  = map (fun c => EvSend c message (ok c)) conns.
Proof.
  induction conns as [|c conns IH]; simpl; [reflexivity|].
  destruct (send_each ok message conns) as [evs disc]. simpl in IH.
  destruct (ok c); simpl; now rewrite IH.
Qed.

Lemma send_each_disconnected ok message conns :
  snd (send_each ok message conns) = filter (fun c => negb (ok c)) conns.
Proof.
  induction conns as [|c conns IH]; simpl; [reflexivity|].
  destruct (send_each ok message conns) as [evs disc]. simpl in IH.
  destruct (ok c); simpl; now rewrite IH.
Qed.

Lemma unregister_present (x : WebSocket) (pre rest : list WebSocket) st :
  active_connections st = pre ++ x :: rest -> ~ In x pre ->
  unregister x st = (Ok tt, with_connections st (pre ++ rest)).
Proof.
  intros E N. unfold unregister, bind, get_state.
  rewrite E, list_remove_first by assumption. reflexivity.
Qed.

Lemma unregister_absent (x : WebSocket) st :
  ~ In x (active_connections st) ->
  unregister x st = (Raised ValueError, st).
Proof.
  intros N. unfold unregister, bind, get_state.
  apply list_remove_None in N. now rewrite N.
Qed.

(** The second loop of [broadcast] never finds a connection missing:
    what the first loop collected is removed, and only that. *)
Lemma remove_each_failed (ok : WebSocket -> bool) (rest : list WebSocket) :
  forall (pre : list WebSocket) (st : State),
    (forall x, In x pre -> ok x = true) ->
    active_connections st = pre ++ rest ->
    remove_each (filter (fun c => negb (ok c)) rest) st
    = (Ok tt, with_connections st (pre ++ filter ok rest)).
Proof.
  induction rest as [|c rest IH]; intros pre st Hpre E; simpl.
  - unfold ret, with_connections. rewrite <- E. now destruct st.
  - destruct (ok c) eqn:Hc; simpl.
    + replace (pre ++ c :: filter ok rest)
        with ((pre ++ [c]) ++ filter ok rest) by now rewrite <- app_assoc.
      apply IH.
      * intros x [i|[<-|[]]]%in_app_or; auto.
      * now rewrite <- app_assoc.
    + unfold bind at 1.
      rewrite (unregister_present c pre rest st E).
      * rewrite (IH pre (with_connections st (pre ++ rest)) Hpre eq_refl).
        reflexivity.
      * intros i. apply Hpre in i. congruence.
Qed.

End Registry.


(** ** Running the handlers *)

Section Steps.
Local Open Scope list_scope.

Lemma bind_ok {A B} (m : M A) (k : A -> M B) st a st' :
  m st = (Ok a, st') -> bind m k st = k a st'.
Proof. intros E. unfold bind. now rewrite E. Qed.

Lemma bind_raised {A B} (m : M A) (k : A -> M B) st e st' :
  m st = (Raised e, st') -> bind m k st = (Raised e, st').
Proof. intros E. unfold bind. now rewrite E. Qed.

Lemma messages_append_ok (m : ChatMessage) (st : State) :
  messages_append m st
  = (Ok tt, mkState (messages st ++ [m]) (active_connections st)
                    (created st) (passes st) (trace st ++ [EvAppend m])).
Proof. reflexivity. Qed.

Lemma emit_ok (e : event) (st : State) :
  emit e st
  = (Ok tt, mkState (messages st) (active_connections st)
                    (created st) (passes st) (trace st ++ [e])).
Proof. reflexivity. Qed.

End Steps.

(** Runs the first computation of a sequence with the equation [E]. *)
Ltac run E := erewrite bind_ok; [| first [ apply E | exact E ] ].

Section Running.
Local Open Scope list_scope.
Variable env : Env.

(** A pass of [broadcast] always completes. *)
Lemma broadcast_ok (m : ChatMessage) (st : State) :
  broadcast env m st = (Ok tt, after_broadcast env m st).
Proof.
  unfold broadcast, bind at 1, get_state.
  set (ok := send_json_ok env (passes st)).
  pose proof (send_each_events ok m (active_connections st)) as Hev.
  pose proof (send_each_disconnected ok m (active_connections st)) as Hd.
  destruct (send_each ok m (active_connections st)) as [evs disc].
  simpl in Hev, Hd. subst evs disc.
  unfold bind, modify.
  rewrite (remove_each_failed ok (active_connections st) []);
    [reflexivity | intros x [] | reflexivity].
Qed.

Lemma new_message_ok prefix sender content read status type_ metadata st :
  new_message env prefix sender (JStr content) read status type_ metadata st
  = (Ok (mkChatMessage (prefix ++ "-" ++ uuid4 env (created st))%string
                       sender content (now_isoformat env (created st))
                       read status type_ metadata),
     mkState (messages st) (active_connections st) (S (created st))
             (passes st) (trace st)).
Proof. reflexivity. Qed.

Lemma publish_ok (m : ChatMessage) (st : State) :
  (messages_append m ;; broadcast env m)
    (mkState (messages st) (active_connections st) (S (created st))
             (passes st) (trace st))
  = (Ok tt, after_publish env m st).
Proof.
  unfold bind at 1, messages_append, modify. cbn [messages active_connections
    created passes trace]. now rewrite broadcast_ok.
Qed.

Lemma handle_bot_response_ok (user_message : string) (st : State) :
  handle_bot_response env (JStr user_message) st
  = (Ok tt, after_publish env (bot_entry env (created st) user_message) st).
Proof.
  unfold handle_bot_response. unfold bind at 1, ret at 1.
  destruct (bot_reply user_message) as [response msg_type] eqn:E.
  rewrite (bind_ok _ _ _ _ _ (new_message_ok _ _ _ _ _ _ _ _)).
  rewrite publish_ok. unfold bot_entry. now rewrite E.
Qed.

(** *** One iteration of the receive loop *)

Lemma json_eq_str_true (v : json) (s : string) :
  json_eq_str v s = true <-> v = JStr s.
Proof.
  destruct v; simpl; try (split; [discriminate | congruence]).
  rewrite String.eqb_eq. split; congruence.
Qed.


Lemma on_text_send_message d (content : string) st :
  dict_get "type" JNull d = JStr "send-message" ->
  dict_get "content" (JStr "") d = JStr content ->
  on_text env (JSON (JDict d)) st
  = (Ok tt, after_send_message env content st).
Proof.
  intros Hty Hc. unfold on_text.
  run (eq_refl : json_loads (JSON (JDict d)) st = (Ok (JDict d), st)).
  run (eq_refl : py_get (JDict d) "type" JNull st
                 = (Ok (dict_get "type" JNull d), st)).
  rewrite Hty. cbn [json_eq_str]. rewrite String.eqb_refl.
  run (eq_refl : py_get (JDict d) "content" (JStr "") st
                 = (Ok (dict_get "content" (JStr "") d), st)).
  rewrite Hc.
  run (new_message_ok "msg" "user" content true "sent" "text" None st).
  fold (user_entry env (created st) content).
  set (u := user_entry env (created st) content).
  run messages_append_ok. run broadcast_ok. run emit_ok.
  rewrite handle_bot_response_ok. reflexivity.
Qed.

Lemma on_text_other_type d st :
  dict_get "type" JNull d <> JStr "send-message" ->
  on_text env (JSON (JDict d)) st = (Ok tt, st).
Proof.
  intros Hty. unfold on_text.
  run (eq_refl : json_loads (JSON (JDict d)) st = (Ok (JDict d), st)).
  run (eq_refl : py_get (JDict d) "type" JNull st
                 = (Ok (dict_get "type" JNull d), st)).
  destruct (json_eq_str _ _) eqn:E; [|reflexivity].
  apply json_eq_str_true in E. contradiction.
Qed.

Lemma on_text_not_json st :
  on_text env NotJSON st = (Raised JSONDecodeError, st).
Proof. reflexivity. Qed.

Lemma on_text_not_dict v st :
  (forall d, v <> JDict d) ->
  on_text env (JSON v) st = (Raised AttributeError, st).
Proof.
  intros H. destruct v; try reflexivity. now destruct (H items).
Qed.

(** *** The loop *)

Lemma receive_loop_frame websocket data rest st :
  receive_loop env websocket (Frame data :: rest) st
  = (on_text env data ;; receive_loop env websocket rest)
      (after_receive websocket st).
Proof. reflexivity. Qed.

Lemma receive_loop_disconnect websocket rest st :
  receive_loop env websocket (Disconnect :: rest) st
  = (Raised WebSocketDisconnect, st).
Proof. reflexivity. Qed.

End Running.

(** * The claims *)

Section RegistryClaims.
Local Open Scope list_scope.
Variable env : Env.

(** C4. A pass of [broadcast] completes on every registry and payload.
    It makes one delivery attempt per registered connection, in
    registry order, whatever the result of the attempts before it;
    afterwards the registry holds exactly the connections whose
    delivery succeeded, in their old order, and the log is untouched.
    On an empty registry nothing is sent and nothing is removed. *)
Theorem broadcast_prunes_exactly_the_failed (m : ChatMessage) (st : State) :
  let ok := send_json_ok env (passes st) in
  exists st',
    broadcast env m st = (Ok tt, st')
    /\ trace st' = trace st
                   ++ map (fun c => EvSend c m (ok c)) (active_connections st)
    /\ active_connections st' = filter ok (active_connections st)
    /\ (forall c, In c (active_connections st')
                  <-> In c (active_connections st) /\ ok c = true)
    /\ (forall c, In c (active_connections st) ->
                  In (EvSend c m (ok c)) (trace st'))
    /\ messages st' = messages st
    /\ (active_connections st = [] ->
        active_connections st' = [] /\ trace st' = trace st).
Proof.
  intros ok. exists (after_broadcast env m st).
  split; [apply broadcast_ok|]. unfold after_broadcast, pass_events.
  cbn [trace active_connections messages]. fold ok.
  split; [reflexivity|]. split; [reflexivity|].
  split; [intros c; apply filter_In|].
  split.
  { intros c Hc. apply in_or_app. right. apply in_map_iff. now exists c. }
  split; [reflexivity|].
  intros E. rewrite E. simpl. now rewrite app_nil_r.
Qed.

(** C2, as the code has it.  [active_connections.remove] takes out the
    first occurrence of a registered connection and leaves the others
    in place; for a connection that is not in the registry it raises
    [ValueError] and changes nothing.  In a registry without
    duplicates a second removal of the same connection therefore
    raises. *)
Theorem unregister_removes_or_raises (websocket : WebSocket) (st : State) :
  (In websocket (active_connections st) ->
   exists pre rest,
     active_connections st = pre ++ websocket :: rest
     /\ ~ In websocket pre
     /\ unregister websocket st = (Ok tt, with_connections st (pre ++ rest)))
  /\ (~ In websocket (active_connections st) ->
      unregister websocket st = (Raised ValueError, st))
  /\ (NoDup (active_connections st) ->
      forall st', unregister websocket st = (Ok tt, st') ->
                  unregister websocket st' = (Raised ValueError, st')).
Proof.
  split; [|split].
  - intros Hin. destruct (list_remove websocket (active_connections st))
      as [l|] eqn:E.
    + destruct (list_remove_Some _ _ _ E) as (pre & rest & Ereg & Hn & ->).
      exists pre, rest. repeat split; auto.
      now apply unregister_present.
    + apply list_remove_None in E. contradiction.
  - apply unregister_absent.
  - intros Hnd st' Hrun. unfold unregister, bind, get_state in Hrun.
    destruct (list_remove websocket (active_connections st))
      as [l|] eqn:E; [|discriminate].
    injection Hrun as <-.
    destruct (list_remove_Some _ _ _ E) as (pre & rest & Ereg & Hn & ->).
    apply unregister_absent. cbn [with_connections active_connections].
    rewrite Ereg in Hnd. apply NoDup_remove_2 in Hnd. exact Hnd.
Qed.

End RegistryClaims.

(** C2, as stated, fails: removing a connection that was never
    registered raises [ValueError], and so does the disconnect handler
    of a connection that a pass of [broadcast] has pruned already
    (connection 2, whose own message could not be delivered to it). *)
Lemma unregister_absent_raises :
  fst (unregister 7 Sample.three_connected) = Raised ValueError
  /\ fst ((register 7 ;; unregister 7 ;; unregister 7) initial)
     = Raised ValueError
  /\ fst (websocket_endpoint Sample.env 2
            [Sample.send_message "hello"; Disconnect] initial)
     = Raised ValueError.
Proof. repeat split; reflexivity. Qed.

Section SessionClaims.
Local Open Scope list_scope.
Variable env : Env.

Lemma after_send_message_messages content st :
  messages (after_send_message env content st)
  = messages st ++ [user_entry env (created st) content;
                    bot_entry env (S (created st)) content].
Proof.
  unfold after_send_message, after_sleep, after_publish, after_broadcast.
  cbn [messages created]. now rewrite <- app_assoc.
Qed.

Lemma after_send_message_trace content st :
  trace (after_send_message env content st)
  = trace st ++ send_message_events env content st.
Proof.
  unfold after_send_message, after_sleep, after_publish, after_broadcast,
    send_message_events.
  cbn [trace created passes active_connections messages].
  now rewrite <- !app_assoc.
Qed.

Lemma after_send_message_connections content st :
  active_connections (after_send_message env content st)
  = filter (send_json_ok env (S (passes st)))
           (filter (send_json_ok env (passes st)) (active_connections st)).
Proof. reflexivity. Qed.

(** C3. A frame [{type: "send-message", content: c}] is handled without
    an exception and adds exactly two entries to the log: the user's
    entry (sender user, read, kind text, content [c]) and then the
    bot's entry (unread, status delivered) holding the responder's
    answer to [c].  The effects come in this order: the user's entry is
    appended and sent to every connection then registered, one second
    of sleep, the bot's entry is appended and sent to every connection
    the first pass left registered. *)
Theorem send_message_logs_user_then_bot
        (d : list (string * json)) (c : string) (st : State) :
  dict_get "type" JNull d = JStr "send-message" ->
  dict_get "content" (JStr "") d = JStr c ->
  let u := user_entry env (created st) c in
  let b := bot_entry env (S (created st)) c in
  let ok1 := send_json_ok env (passes st) in
  let ok2 := send_json_ok env (S (passes st)) in
  exists st',
    on_text env (JSON (JDict d)) st = (Ok tt, st')
    /\ messages st' = messages st ++ [u; b]
    /\ (sender u, read u, type_ u, content u) = ("user", true, "text", c)
    /\ (sender b, read b, status b) = ("bot", false, "delivered")
    /\ (content b, type_ b) = bot_reply c
    /\ trace st'
       = trace st
           ++ [EvAppend u]
           ++ map (fun x => EvSend x u (ok1 x)) (active_connections st)
           ++ [EvSleep 1; EvAppend b]
           ++ map (fun x => EvSend x b (ok2 x))
                  (filter ok1 (active_connections st))
    /\ active_connections st' = filter ok2 (filter ok1 (active_connections st)).
Proof.
  intros Hty Hc u b ok1 ok2. exists (after_send_message env c st).
  split; [now apply on_text_send_message|].
  split; [apply after_send_message_messages|].
  split; [reflexivity|]. split; [reflexivity|].
  split; [unfold b, bot_entry; cbn [content type_];
          now destruct (bot_reply c)|].
  split; [apply after_send_message_trace | reflexivity].
Qed.

Lemma dict_get_missing key default d :
  dict_has key d = false -> dict_get key default d = default.
Proof.
  induction d as [|[k v] d IH]; simpl; [reflexivity|].
  destruct (String.eqb k key); simpl; [discriminate | exact IH].
Qed.

(** C9. A [send-message] frame without a [content] field is not
    rejected: the user's entry is appended and broadcast with the empty
    string as content, and the responder answers the empty string,
    which no keyword matches, with its greeting of kind text. *)
Theorem send_message_without_content
        (d : list (string * json)) (st : State) :
  dict_get "type" JNull d = JStr "send-message" ->
  dict_has "content" d = false ->
  let u := user_entry env (created st) "" in
  let b := bot_entry env (S (created st)) "" in
  exists st',
    on_text env (JSON (JDict d)) st = (Ok tt, st')
    /\ messages st' = messages st ++ [u; b]
    /\ (sender u, content u) = ("user", EmptyString)
    /\ (sender b, content b, type_ b) = ("bot", Templates.greeting, "text")
    /\ trace st' = trace st ++ send_message_events env "" st
    /\ In (EvAppend u) (send_message_events env "" st)
    /\ (forall x, In x (active_connections st) ->
          In (EvSend x u (send_json_ok env (passes st) x))
             (send_message_events env "" st)).
Proof.
  intros Hty Hc u b. exists (after_send_message env "" st).
  split; [apply on_text_send_message;
          [exact Hty | now apply dict_get_missing]|].
  split; [apply after_send_message_messages|].
  split; [reflexivity|]. split; [reflexivity|].
  split; [apply after_send_message_trace|].
  unfold send_message_events. fold u. change ([EvAppend u] ++ ?l) with
    (EvAppend u :: l). split.
  - now left.
  - intros x Hx. right. apply in_or_app. left.
    unfold pass_events. apply in_map_iff. now exists x.
Qed.

(** C10. Two [send-message] frames that one connection sends in a row
    are handled one after the other: the loop takes the second frame
    only after the sleep and the bot's answer to the first, so the log
    grows by the first user entry, its answer, the second user entry
    and its answer, in that order, and the loop then goes on with the
    remaining frames. *)
Theorem consecutive_messages_are_serialized
        (websocket : WebSocket) (d1 d2 : list (string * json))
        (c1 c2 : string) (rest : list inbound) (st : State) :
  dict_get "type" JNull d1 = JStr "send-message" ->
  dict_get "content" (JStr "") d1 = JStr c1 ->
  dict_get "type" JNull d2 = JStr "send-message" ->
  dict_get "content" (JStr "") d2 = JStr c2 ->
  exists st1 st2,
    receive_loop env websocket
                 (Frame (JSON (JDict d1)) :: Frame (JSON (JDict d2)) :: rest) st
    = receive_loop env websocket rest st2
    /\ messages st2
       = messages st
           ++ [user_entry env (created st) c1;
               bot_entry env (S (created st)) c1;
               user_entry env (S (S (created st))) c2;
               bot_entry env (S (S (S (created st)))) c2]
    /\ trace st1
       = trace st ++ [EvReceive websocket]
                  ++ send_message_events env c1 (after_receive websocket st)
    /\ trace st2
       = trace st1 ++ [EvReceive websocket]
                   ++ send_message_events env c2 (after_receive websocket st1).
Proof.
  intros T1 C1 T2 C2.
  set (st1 := after_send_message env c1 (after_receive websocket st)).
  set (st2 := after_send_message env c2 (after_receive websocket st1)).
  exists st1, st2. split; [|split; [|split]].
  - rewrite receive_loop_frame.
    run (on_text_send_message env d1 c1 (after_receive websocket st) T1 C1).
    fold st1. rewrite receive_loop_frame.
    run (on_text_send_message env d2 c2 (after_receive websocket st1) T2 C2).
    reflexivity.
  - unfold st2. rewrite after_send_message_messages.
    cbn [after_receive messages created]. unfold st1.
    rewrite after_send_message_messages.
    cbn [after_receive messages created]. now rewrite <- app_assoc.
  - unfold st1. rewrite after_send_message_trace.
    cbn [after_receive trace]. now rewrite <- app_assoc.
  - unfold st2. rewrite after_send_message_trace.
    cbn [after_receive trace]. now rewrite <- app_assoc.
Qed.

End SessionClaims.

Section MalformedFrames.
Local Open Scope list_scope.
Variable env : Env.

(** C1, as the code has it.  A frame that decodes to an object whose
    [type] is not ["send-message"] is dropped: the loop goes on to the
    next frame with the log and the registry as they were.  A frame
    that is not JSON makes [json.loads] raise [JSONDecodeError], and
    one that decodes to something other than an object makes [.get]
    raise [AttributeError]; the loop handles neither, so the session
    ends with that exception, its later frames are never read, the log
    is unchanged, every connection (this one too) is still
    registered. *)
Theorem frame_without_send_message
        (websocket : WebSocket) (rest : list inbound) (st : State) :
  (forall d, dict_get "type" JNull d <> JStr "send-message" ->
     receive_loop env websocket (Frame (JSON (JDict d)) :: rest) st
     = receive_loop env websocket rest (after_receive websocket st))
  /\ receive_loop env websocket (Frame NotJSON :: rest) st
     = (Raised JSONDecodeError, after_receive websocket st)
  /\ (forall v, (forall d, v <> JDict d) ->
        receive_loop env websocket (Frame (JSON v) :: rest) st
        = (Raised AttributeError, after_receive websocket st))
  /\ websocket_endpoint env websocket (Frame NotJSON :: rest) st
     = (Raised JSONDecodeError,
        after_receive websocket
          (with_connections st (active_connections st ++ [websocket]))).
Proof.
  split; [|split; [|split]].
  - intros d Hty. rewrite receive_loop_frame.
    now run (on_text_other_type env d (after_receive websocket st) Hty).
  - reflexivity.
  - intros v Hv. rewrite receive_loop_frame.
    erewrite bind_raised; [reflexivity|]. now apply on_text_not_dict.
  - reflexivity.
Qed.

End MalformedFrames.

(** C1, as stated, fails: after a frame that is not JSON the session of
    connection 1 is over with [JSONDecodeError], and the message it
    sends next, which alone would be logged and answered, is never
    read. *)
Lemma undecodable_frame_ends_the_session :
  let bad := websocket_endpoint Sample.env 1
               [Frame NotJSON; Sample.send_message "hello"] initial in
  let good := websocket_endpoint Sample.env 1
                [Sample.send_message "hello"] initial in
  fst bad = Raised JSONDecodeError
  /\ messages (snd bad) = []
  /\ active_connections (snd bad) = [1]
  /\ fst good = Ok Receiving
  /\ map sender (messages (snd good)) = ["user"; "bot"].
Proof. repeat split; reflexivity. Qed.

(** The theorems above at the sample run. *)

Lemma send_message_logs_user_then_bot_sample :
  let d := [("type", JStr "send-message"); ("content", JStr "build status")] in
  dict_get "type" JNull d = JStr "send-message"
  /\ dict_get "content" (JStr "") d = JStr "build status"
  /\ exists st',
       on_text Sample.env (JSON (JDict d)) Sample.three_connected = (Ok tt, st')
       /\ map type_ (messages st') = ["text"; "notification"]
       /\ active_connections st' = [1; 3].
Proof.
  intros d. split; [reflexivity|]. split; [reflexivity|].
  pose proof (send_message_logs_user_then_bot Sample.env d "build status"
                Sample.three_connected eq_refl eq_refl) as H.
  cbv zeta in H. destruct H as (st' & E & Hm & _ & _ & _ & _ & Hc).
  exists st'. rewrite Hm, Hc. repeat split; [exact E | reflexivity ..].
Defined.

Lemma send_message_without_content_sample :
  let d := [("type", JStr "send-message")] in
  dict_get "type" JNull d = JStr "send-message"
  /\ dict_has "content" d = false
  /\ exists st',
       on_text Sample.env (JSON (JDict d)) Sample.three_connected = (Ok tt, st')
       /\ map content (messages st') = [EmptyString; Templates.greeting].
Proof.
  intros d. split; [reflexivity|]. split; [reflexivity|].
  pose proof (send_message_without_content Sample.env d
                Sample.three_connected eq_refl eq_refl) as H.
  cbv zeta in H. destruct H as (st' & E & Hm & _).
  exists st'. rewrite Hm. split; [exact E | reflexivity].
Defined.

Lemma consecutive_messages_are_serialized_sample :
  let d1 := [("type", JStr "send-message"); ("content", JStr "status?")] in
  let d2 := [("type", JStr "send-message"); ("content", JStr "it failed")] in
  dict_get "type" JNull d1 = JStr "send-message"
  /\ dict_get "content" (JStr "") d1 = JStr "status?"
  /\ dict_get "type" JNull d2 = JStr "send-message"
  /\ dict_get "content" (JStr "") d2 = JStr "it failed"
  /\ exists st2,
       receive_loop Sample.env 1
         [Frame (JSON (JDict d1)); Frame (JSON (JDict d2))]
         Sample.three_connected
       = (Ok Receiving, st2)
       /\ map (fun m => (sender m, type_ m)) (messages st2)
          = [("user", "text"); ("bot", "notification");
             ("user", "text"); ("bot", "alert")].
Proof.
  intros d1 d2. repeat (split; [reflexivity|]).
  destruct (consecutive_messages_are_serialized Sample.env 1 d1 d2
              "status?" "it failed" [] Sample.three_connected
              eq_refl eq_refl eq_refl eq_refl)
    as (st1 & st2 & E & Hm & _).
  exists st2. rewrite Hm. split; [exact E | reflexivity].
Defined.

(** ** The responder and the API routes *)

Section ResponderClaim.
Variable user_message : string.

(** C5. The reply depends on the text alone and follows the five
    conditions in their order, the first that holds deciding: builds
    or status gives the build summary as a notification, else erro or
    fail the error report as an alert, else sucesso or success the
    success summary as a success, else help, ajuda or a question mark
    the command list as text, else the greeting as text.  The keywords
    are looked for in the lower-cased text, the question mark in the
    text itself.  [handle_bot_response] logs exactly this reply,
    whatever the state. *)
Theorem bot_reply_first_match_wins :
  (asks_builds user_message ->
   bot_reply user_message = (Templates.builds, "notification"))
  /\ (~ asks_builds user_message -> asks_errors user_message ->
      bot_reply user_message = (Templates.errors, "alert"))
  /\ (~ asks_builds user_message -> ~ asks_errors user_message ->
      asks_successes user_message ->
      bot_reply user_message = (Templates.successes, "success"))
  /\ (~ asks_builds user_message -> ~ asks_errors user_message ->
      ~ asks_successes user_message -> asks_help user_message ->
      bot_reply user_message = (Templates.help, "text"))
  /\ (~ asks_builds user_message -> ~ asks_errors user_message ->
      ~ asks_successes user_message -> ~ asks_help user_message ->
      bot_reply user_message = (Templates.greeting, "text"))
  /\ (forall env st, exists e st',
        handle_bot_response env (JStr user_message) st = (Ok tt, st')
        /\ messages st' = (messages st ++ [e])%list
        /\ (content e, type_ e) = bot_reply user_message).
Proof.
  split; [apply reply_builds|]. split; [apply reply_errors|].
  split; [apply reply_successes|]. split; [apply reply_help|].
  split; [apply reply_greeting|].
  intros env st. eexists. eexists.
  split; [apply handle_bot_response_ok|].
  split; [reflexivity|]. cbn [bot_entry content type_].
  now destruct (bot_reply user_message).
Qed.

End ResponderClaim.

(** The replies of the five sample texts; the help answer and the
    greeting are both of kind text and differ in what they say. *)
Lemma bot_reply_samples :
  bot_reply "what is the build status?" = (Templates.builds, "notification")
  /\ bot_reply "there was an erro" = (Templates.errors, "alert")
  /\ bot_reply "success!" = (Templates.successes, "success")
  /\ bot_reply "help?" = (Templates.help, "text")
  /\ bot_reply "hello" = (Templates.greeting, "text")
  /\ bot_reply "BUILD failed" = (Templates.builds, "notification")
  /\ Templates.help <> Templates.greeting.
Proof. repeat split; try reflexivity. discriminate. Qed.

Section Intake.
Local Open Scope list_scope.
Variable env : Env.

Lemma dict_get_lookup key default d :
  dict_get key default d
  = match dict_lookup key d with Some v => v | None => default end.
Proof.
  induction d as [|[k v] d IH]; simpl; [reflexivity|].
  now destruct (String.eqb k key).
Qed.

Lemma detail_shown key default d :
  format_value env (dict_get key default d)
  = match dict_lookup key d with
    | Some v => format_value env v
    | None => format_value env default
    end.
Proof. rewrite dict_get_lookup. now destruct (dict_lookup key d). Qed.

Lemma emoji_table status :
  table_get status "📢"%string
            [("success", "✅"); ("failure", "❌");
             ("running", "🔄"); ("cancelled", "⚠️")]%string
  = status_emoji status.
Proof.
  unfold status_emoji. cbn [table_get].
  rewrite !(String.eqb_sym _ status).
  repeat destruct (String.eqb status _); reflexivity.
Qed.

Lemma kind_table status :
  table_get status "notification"%string
            [("failure", "alert"); ("success", "success")]%string
  = build_kind status.
Proof.
  unfold build_kind. cbn [table_get].
  rewrite !(String.eqb_sym _ status).
  repeat destruct (String.eqb status _); reflexivity.
Qed.

(** C6. Every build notification is accepted: [notify_build] returns
    [{"success": True}] and appends exactly one entry, of sender bot,
    unread, status delivered, with the notification's buildId and
    workflow as metadata; its kind is alert for status failure,
    success for status success and notification for any other status;
    its content shows N/A for a missing duration and 0 for missing
    testsPassed, testsRun and coverage; the entry is then sent to every
    registered connection. *)
Theorem notify_build_logs_one_bot_entry
        (notification : Build.Notification) (st : State) :
  exists e st',
    notify_build env notification st = (Ok [("success", JBool true)]%string, st')
    /\ messages st' = messages st ++ [e]
    /\ (sender e, read e, status e) = ("bot", false, "delivered")%string
    /\ metadata e = Some [("buildId", Build.buildId notification);
                          ("workflow", Build.workflow notification)]%string
    /\ type_ e = build_kind (Build.status notification)
    /\ (Build.status notification = "failure"%string -> type_ e = "alert"%string)
    /\ (Build.status notification = "success"%string
        -> type_ e = "success"%string)
    /\ (Build.status notification <> "failure"%string ->
        Build.status notification <> "success"%string ->
        type_ e = "notification"%string)
    /\ content e = build_summary env notification
    /\ trace st'
       = trace st ++ EvAppend e
                  :: map (fun c => EvSend c e (send_json_ok env (passes st) c))
                         (active_connections st).
Proof.
  unfold notify_build. cbv zeta. rewrite emoji_table, kind_table.
  rewrite !detail_shown.
  change (format_value env (JStr "N/A")) with "N/A"%string.
  change (format_value env (JInt 0)) with "0"%string.
  fold (build_summary env notification).
  eexists. eexists. split.
  { run new_message_ok. run messages_append_ok. run broadcast_ok.
    reflexivity. }
  cbn [after_broadcast messages trace active_connections passes sender read
       status metadata type_ content].
  split; [reflexivity|]. split; [reflexivity|]. split; [reflexivity|].
  split; [reflexivity|].
  unfold build_kind.
  split; [intros ->; reflexivity|]. split; [intros ->; reflexivity|].
  split.
  { intros N1 N2. apply String.eqb_neq in N1, N2. now rewrite N1, N2. }
  split; [reflexivity|]. unfold pass_events. now rewrite <- app_assoc.
Qed.

End Intake.

(** The notification of build 42 with no details. *)
Lemma notify_build_sample :
  let r := notify_build Sample.env
             (Build.mkNotification "42" "CI" "failure" []) initial in
  fst r = Ok [("success", JBool true)]
  /\ map type_ (messages (snd r)) = ["alert"]
  /\ map metadata (messages (snd r))
     = [Some [("buildId", "42"); ("workflow", "CI")]]
  /\ map content (messages (snd r))
     = ["❌ **CI** - FAILURE

📋 Build ID: 42
⏱️ Duração: N/As
🧪 Testes: 0/0 passed
📈 Coverage: 0%"].
Proof. repeat split; reflexivity. Qed.

(** The status line of the summary: an ASCII status is capitalised
    letter by letter; for a status with other characters the capitals
    are Python's, read from the environment. *)
Lemma str_upper_by_text (env : Env) (s : string) :
  (PyStr.isascii s = true -> str_upper env s = PyStr.ascii_upper s)
  /\ (PyStr.isascii s = false -> str_upper env s = upper_other env s).
Proof. unfold str_upper. split; intros ->; reflexivity. Qed.

Lemma str_upper_samples (env : Env) :
  str_upper env "failure" = "FAILURE"
  /\ str_upper env "cancelled" = "CANCELLED"
  /\ str_upper env "concluído" = upper_other env "concluído".
Proof. repeat split; reflexivity. Qed.

(** ** The log queries *)

Section Queries.
Local Open Scope list_scope.

Lemma slice_from_last {A} (n : nat) (l : list A) :
  0 < n -> slice_from (- Z.of_nat n) l = last_entries n l.
Proof.
  intros Hn. unfold slice_from, last_entries.
  destruct (Z.ltb_spec (- Z.of_nat n) 0) as [_|H]; [|lia].
  f_equal. lia.
Qed.

Lemma last_entries_length {A} (n : nat) (l : list A) :
  List.length (last_entries n l) = Nat.min n (List.length l).
Proof. unfold last_entries. rewrite length_skipn. lia. Qed.

Lemma last_entries_suffix {A} (n : nat) (l : list A) :
  exists older, l = older ++ last_entries n l.
Proof.
  exists (firstn (List.length l - n) l). unfold last_entries.
  now rewrite firstn_skipn.
Qed.

(** With a positive limit the query gives the last [min limit total]
    entries, oldest first; without a limit it is the query of 50. *)
Lemma get_messages_positive (n : nat) (st : State) :
  0 < n ->
  get_messages (Some (Z.of_nat n)) st = last_entries n (messages st)
  /\ List.length (get_messages (Some (Z.of_nat n)) st)
     = Nat.min n (List.length (messages st))
  /\ exists older, messages st = older ++ get_messages (Some (Z.of_nat n)) st.
Proof.
  intros Hn. unfold get_messages. rewrite slice_from_last by assumption.
  split; [reflexivity|]. split.
  - apply last_entries_length.
  - apply last_entries_suffix.
Qed.

Lemma get_messages_default (st : State) :
  get_messages None st = get_messages (Some 50%Z) st.
Proof. reflexivity. Qed.

(** C7 at the limit 0: [messages[-0:]] is [messages[0:]], the query
    returns the whole log and not the last [min 0 total = 0] entries. *)
Theorem get_messages_limit_zero_returns_the_log (st : State) :
  get_messages (Some 0%Z) st = messages st.
Proof.
  unfold get_messages, slice_from. cbn [Z.opp Z.ltb Z.compare].
  replace (Z.min 0 (Z.of_nat (List.length (messages st)))) with 0%Z by lia.
  reflexivity.
Qed.

Lemma get_messages_limit_zero_sample :
  let st := mkState [Sample.entry "user" true; Sample.entry "bot" false]
                    [] 2 2 [] in
  List.length (get_messages (Some 0%Z) st) = 2
  /\ Nat.min 0 (List.length (messages st)) = 0.
Proof. split; reflexivity. Qed.

(** *** Unread entries *)

Lemma unread_from_bot_iff (m : ChatMessage) :
  unread_from_botb m = true <-> unread_from_bot m.
Proof.
  unfold unread_from_botb, unread_from_bot.
  rewrite andb_true_iff, negb_true_iff, String.eqb_eq. tauto.
Qed.

Lemma sum_of_ones {A} (l : list A) :
  list_sum (map (fun _ => 1) l) = List.length l.
Proof. induction l; simpl; congruence. Qed.

Lemma counted_filter (log : list ChatMessage) :
  counted log (List.length (filter unread_from_botb log)).
Proof.
  induction log as [|m log IH] using rev_ind; [constructor|].
  rewrite filter_app, length_app. cbn [filter].
  destruct (unread_from_botb m) eqn:E; cbn [List.length].
  - rewrite Nat.add_1_r. constructor; [exact IH|].
    now apply unread_from_bot_iff.
  - rewrite Nat.add_0_r. apply counted_other; [exact IH|].
    rewrite <- unread_from_bot_iff. congruence.
Qed.

Lemma counted_unique (log : list ChatMessage) (n : nat) :
  counted log n -> n = List.length (filter unread_from_botb log).
Proof.
  induction 1 as [|log n m _ IH Hm|log n m _ IH Hm].
  - reflexivity.
  - apply unread_from_bot_iff in Hm. rewrite filter_app, length_app.
    cbn [filter]. rewrite Hm. cbn [List.length]. lia.
  - rewrite <- unread_from_bot_iff in Hm. rewrite filter_app, length_app.
    cbn [filter]. destruct (unread_from_botb m); [congruence|].
    cbn [List.length]. lia.
Qed.

(** C8. However the log was built up by appends of user and bot
    entries, [get_unread] reports the number of appended entries that
    are unread and from the bot, and no other number counts them. *)
Theorem get_unread_counts_unread_bot_entries (st : State) :
  exists n,
    get_unread st = [("unread"%string, JInt (Z.of_nat n))]
    /\ counted (messages st) n
    /\ (forall n', counted (messages st) n' -> n' = n).
Proof.
  exists (List.length (filter unread_from_botb (messages st))).
  split; [|split].
  - unfold get_unread. now rewrite sum_of_ones.
  - apply counted_filter.
  - apply counted_unique.
Qed.

End Queries.

(** * Further properties *)

(** ** Substitution of a pattern in a text *)

Module ProfilesFacts.
Import Profiles.
Local Open Scope list_scope.

Lemma text_eqb_eq (a b : text) : text_eqb a b = true <-> a = b.
Proof.
  revert b; induction a as [|x a IH]; intros [|y b]; simpl.
  - tauto.
  - split; discriminate.
  - split; discriminate.
  - rewrite andb_true_iff, N.eqb_eq, IH. split.
    + now intros [-> ->].
    + intros [= -> ->]. now split.
Qed.

Lemma strip_prefix_Some (p l r : text) :
  strip_prefix p l = Some r <-> l = p ++ r.
Proof.
  revert l; induction p as [|a p IH]; intros l; simpl.
  - split; congruence.
  - destruct l as [|b l]; [split; discriminate|].
    destruct (N.eqb_spec a b) as [->|N].
    + rewrite IH. split; congruence.
    + split; [discriminate | congruence].
Qed.

Lemma take_drop (p : N -> bool) (l : text) :
  take_while p l ++ drop_while p l = l.
Proof.
  induction l as [|c l IH]; simpl; [reflexivity|].
  destruct (p c); simpl; congruence.
Qed.

Lemma drop_while_length (p : N -> bool) (l : text) :
  List.length (drop_while p l) <= List.length l.
Proof.
  induction l as [|c l IH]; simpl; [lia|]. destruct (p c); simpl; lia.
Qed.

Lemma take_while_stop (p : N -> bool) (a b : text) (c : N) :
  Forall (fun x => p x = true) a -> p c = false ->
  take_while p (a ++ c :: b) = a /\ drop_while p (a ++ c :: b) = c :: b.
Proof.
  induction 1 as [|x a Hx _ IH]; intros Hc; simpl.
  - now rewrite Hc.
  - rewrite Hx. destruct (IH Hc) as [-> ->]. now split.
Qed.

Lemma drop_while_all (p : N -> bool) (a rest : text) :
  Forall (fun x => p x = true) a ->
  drop_while p (a ++ rest) = drop_while p rest.
Proof. induction 1 as [|x a Hx _ IH]; simpl; [|rewrite Hx]; auto. Qed.

Lemma drop_while_head (p : N -> bool) (l : text) :
  match drop_while p l with
  | [] => True
  | c :: _ => p c = false
  end.
Proof.
  induction l as [|c l IH]; simpl; [exact I|].
  destruct (p c) eqn:E; [exact IH | exact E].
Qed.

Lemma match_profile_shrinking : shrinking match_profile.
Proof.
  intros l rest. unfold match_profile.
  destruct (strip_prefix profile_header l) as [l1|] eqn:E; [|discriminate].
  apply strip_prefix_Some in E. subst l. cbv zeta.
  pose proof (take_drop (fun c => negb (N.eqb c rbracket)) l1) as Htd.
  destruct (take_while _ l1) as [|x name]; [discriminate|].
  destruct (drop_while _ l1) as [|c l2]; [discriminate|].
  destruct (N.eqb c rbracket); [|discriminate].
  intros [= <-]. rewrite <- Htd.
  pose proof (drop_while_length (fun c => negb (N.eqb c lbracket)) l2).
  rewrite !length_app. simpl. lia.
Qed.

Lemma match_blank_lines_shrinking : shrinking match_blank_lines.
Proof.
  intros [|a [|b [|c t]]] rest; simpl; try discriminate.
  destruct (_ && _); [|discriminate]. intros [= <-].
  pose proof (drop_while_length (fun c => N.eqb c nl) t). lia.
Qed.

Section Scan.
Variable matcher : text -> option text.
Variable repl : text.
Hypothesis matcher_shrinks : shrinking matcher.

Lemma re_sub_fuel_enough (f1 f2 : nat) (l : text) :
  List.length l <= f1 -> List.length l <= f2 ->
  re_sub_fuel matcher repl f1 l = re_sub_fuel matcher repl f2 l.
Proof.
  revert f2 l. induction f1 as [|f1 IH]; intros f2 l H1 H2.
  - destruct l; [|simpl in H1; lia]. now destruct f2.
  - destruct f2 as [|f2]; [destruct l; [reflexivity | simpl in H2; lia]|].
    destruct l as [|c t]; [reflexivity|]. simpl in H1, H2. simpl.
    destruct (matcher (c :: t)) as [rest|] eqn:E.
    + apply matcher_shrinks in E. simpl in E.
      f_equal. apply IH; lia.
    + f_equal. apply IH; lia.
Qed.

(** The scan, position by position. *)
Lemma re_sub_unfold (l : text) :
  re_sub matcher repl l
  = match l with
    | [] => []
    | c :: t =>
        match matcher l with
        | Some rest => repl ++ re_sub matcher repl rest
        | None => c :: re_sub matcher repl t
        end
    end.
Proof.
  unfold re_sub. destruct l as [|c t]; [reflexivity|].
  cbn [List.length re_sub_fuel].
  destruct (matcher (c :: t)) as [rest|] eqn:E.
  - apply matcher_shrinks in E. simpl in E.
    f_equal. apply re_sub_fuel_enough; lia.
  - reflexivity.
Qed.

End Scan.

(** *** Occurrences *)

Lemma starts_with_iff (p l : text) :
  starts_with p l = true <-> exists post, l = p ++ post.
Proof.
  unfold starts_with. destruct (strip_prefix p l) as [r|] eqn:E.
  - apply strip_prefix_Some in E. split; [now exists r | reflexivity].
  - split; [discriminate|]. intros [post H].
    apply strip_prefix_Some in H. congruence.
Qed.

Lemma found_iff (sub l : text) : found sub l = true <-> occurs sub l.
Proof.
  unfold occurs. induction l as [|c l IH].
  - simpl. rewrite orb_false_r, starts_with_iff. split.
    + intros [post H]. now exists [], post.
    + intros [[|a pre] [post H]]; [now exists post | discriminate].
  - cbn [found]. rewrite orb_true_iff, starts_with_iff, IH. split.
    + intros [[post H] | [pre [post H]]].
      * now exists [], post.
      * exists (c :: pre), post. simpl. now rewrite H.
    + intros [[|a pre] [post H]].
      * left. now exists post.
      * right. simpl in H. injection H as -> ->. now exists pre, post.
Qed.

Lemma not_found_iff (sub l : text) : found sub l = false <-> ~ occurs sub l.
Proof. rewrite <- found_iff. destruct (found sub l); split; congruence. Qed.

Lemma found_cons (sub : text) (c : N) (l : text) :
  found sub (c :: l) = false ->
  starts_with sub (c :: l) = false /\ found sub l = false.
Proof. cbn [found]. now intros [? ?]%orb_false_iff. Qed.

(** *** Blank lines *)

Lemma match_blank_lines_starts (l : text) :
  match_blank_lines l
  = if starts_with blank_run l
    then Some (drop_while (fun c => N.eqb c nl) (skipn 3 l))
    else None.
Proof.
  destruct l as [|a [|b [|c t]]]; try reflexivity.
  - unfold starts_with, blank_run, match_blank_lines. cbn [strip_prefix].
    now destruct (N.eqb nl a).
  - unfold starts_with, blank_run, match_blank_lines. cbn [strip_prefix].
    destruct (N.eqb nl a); [|reflexivity]. now destruct (N.eqb nl b).
  - unfold starts_with, match_blank_lines, blank_run. cbn [strip_prefix skipn].
    rewrite !(N.eqb_sym nl).
    destruct (N.eqb a nl); [|reflexivity].
    destruct (N.eqb b nl); [|reflexivity].
    now destruct (N.eqb c nl).
Qed.

Lemma squeeze_unfold (l : text) :
  squeeze_blank_lines l
  = match l with
    | [] => []
    | c :: t =>
        if starts_with blank_run l
        then nl :: nl :: squeeze_blank_lines
                           (drop_while (fun c => N.eqb c nl) (skipn 3 l))
        else c :: squeeze_blank_lines t
    end.
Proof.
  unfold squeeze_blank_lines.
  rewrite (re_sub_unfold _ _ match_blank_lines_shrinking) at 1.
  destruct l as [|c t]; [reflexivity|].
  rewrite match_blank_lines_starts.
  now destruct (starts_with blank_run (c :: t)).
Qed.

Lemma starts_blank_run (l : text) :
  starts_with blank_run l = true <-> exists t, l = nl :: nl :: nl :: t.
Proof. rewrite starts_with_iff. reflexivity. Qed.

(** The squeezed text starts as the text does. *)
Lemma squeeze_head (c : N) (t : text) :
  exists u, squeeze_blank_lines (c :: t) = c :: u.
Proof.
  rewrite squeeze_unfold.
  destruct (starts_with blank_run (c :: t)) eqn:E; [|now eexists].
  apply starts_blank_run in E. destruct E as [t' [= -> ->]]. now eexists.
Qed.

Lemma squeeze_two_line_ends (t u : text) :
  squeeze_blank_lines t = nl :: nl :: u -> exists t', t = nl :: nl :: t'.
Proof.
  destruct t as [|a t]; [rewrite squeeze_unfold; discriminate|].
  rewrite squeeze_unfold.
  destruct (starts_with blank_run (a :: t)) eqn:E.
  - apply starts_blank_run in E. destruct E as [t' ->]. now eexists.
  - intros [= -> H]. destruct t as [|b t].
    + rewrite squeeze_unfold in H. discriminate.
    + destruct (squeeze_head b t) as [v Hv]. rewrite Hv in H.
      injection H as -> _. now eexists.
Qed.

Lemma squeeze_no_blank_run_bounded (n : nat) :
  forall l, (List.length l <= n)%nat ->
            found blank_run (squeeze_blank_lines l) = false.
Proof.
  induction n as [|n IH]; intros l Hl.
  - destruct l; [reflexivity | simpl in Hl; lia].
  - destruct l as [|c t]; [reflexivity|]. rewrite squeeze_unfold.
    destruct (starts_with blank_run (c :: t)) eqn:E.
    + apply starts_blank_run in E. destruct E as [t' [= -> ->]].
      cbn [skipn].
      set (rest := drop_while (fun c => N.eqb c nl) t').
      assert (Hrest : found blank_run (squeeze_blank_lines rest) = false).
      { apply IH. pose proof (drop_while_length (fun c => N.eqb c nl) t').
        fold rest in H. simpl in Hl. lia. }
      pose proof (drop_while_head (fun c => N.eqb c nl) t') as Hh.
      fold rest in Hh. destruct rest as [|b rest'].
      * rewrite squeeze_unfold. reflexivity.
      * destruct (squeeze_head b rest') as [v Hv]. rewrite Hv in *.
        cbn [found]. unfold starts_with at 1 2. cbn [blank_run strip_prefix].
        rewrite !N.eqb_refl, (N.eqb_sym nl b), Hh. exact Hrest.
    + cbn [found]. rewrite (IH t) by (simpl in Hl; lia).
      rewrite orb_false_r.
      destruct (starts_with blank_run (c :: squeeze_blank_lines t)) eqn:F;
        [|reflexivity].
      apply starts_blank_run in F. destruct F as [u [= -> F]].
      apply squeeze_two_line_ends in F. destruct F as [t' ->].
      unfold starts_with in E. simpl in E. discriminate.
Qed.

Lemma squeeze_clean (l : text) :
  found blank_run l = false -> squeeze_blank_lines l = l.
Proof.
  induction l as [|c t IH]; intros H; rewrite squeeze_unfold; [reflexivity|].
  apply found_cons in H. destruct H as [-> H]. now rewrite IH.
Qed.

(** *** Lengths *)

Lemma contracting_shrinking matcher repl :
  contracting matcher repl -> shrinking matcher.
Proof. intros H l rest E. apply H in E. lia. Qed.

Lemma re_sub_length_bounded matcher repl (H : contracting matcher repl)
      (n : nat) :
  forall l, (List.length l <= n)%nat ->
    (List.length (re_sub matcher repl l) <= List.length l)%nat
    /\ (List.length (re_sub matcher repl l) = List.length l ->
        re_sub matcher repl l = l).
Proof.
  induction n as [|n IH]; intros l Hl.
  - destruct l; [now split | simpl in Hl; lia].
  - rewrite (re_sub_unfold _ _ (contracting_shrinking _ _ H)).
    destruct l as [|c t]; [now split|].
    destruct (matcher (c :: t)) as [rest|] eqn:E.
    + apply H in E. simpl in E, Hl.
      destruct (IH rest ltac:(lia)) as [Hle _].
      rewrite length_app. simpl. split; lia.
    + simpl in Hl. destruct (IH t ltac:(lia)) as [Hle Heq].
      simpl. split; [lia|]. intros [= Hlen]. now rewrite Heq.
Qed.

Lemma re_sub_length matcher repl (H : contracting matcher repl) (l : text) :
  (List.length (re_sub matcher repl l) <= List.length l)%nat
  /\ (List.length (re_sub matcher repl l) = List.length l ->
      re_sub matcher repl l = l).
Proof. now apply (re_sub_length_bounded _ _ H (List.length l)). Qed.

Lemma profiles_contracting : contracting match_profile [].
Proof. intros l rest E. apply match_profile_shrinking in E. simpl. lia. Qed.

Lemma blank_lines_contracting : contracting match_blank_lines [nl; nl].
Proof.
  intros [|a [|b [|c t]]] rest; simpl; try discriminate.
  destruct (_ && _); [|discriminate]. intros [= <-].
  pose proof (drop_while_length (fun c => N.eqb c nl) t). lia.
Qed.

(** *** Profile sections *)

Lemma drop_unfold (l : text) :
  drop_profiles l
  = match l with
    | [] => []
    | c :: t =>
        match match_profile l with
        | Some rest => drop_profiles rest
        | None => c :: drop_profiles t
        end
    end.
Proof.
  unfold drop_profiles.
  rewrite (re_sub_unfold _ _ match_profile_shrinking) at 1.
  destruct l; [reflexivity|]. now destruct (match_profile _).
Qed.

Lemma match_profile_needs_header (l : text) :
  starts_with profile_header l = false -> match_profile l = None.
Proof.
  unfold starts_with, match_profile.
  now destruct (strip_prefix profile_header l).
Qed.

(** A prefix without line end that starts before a line end of the
    text ends before it. *)
Lemma strip_prefix_within (p a x r : text) :
  Forall (fun c => c <> nl) p ->
  x = [] \/ (exists t, x = nl :: t) ->
  strip_prefix p (a ++ x) = Some r ->
  exists a', a = p ++ a'.
Proof.
  intros Hp Hx. revert a. induction Hp as [|c p Hc _ IH]; intros a E.
  - now exists a.
  - destruct a as [|y a]; simpl in E.
    + destruct Hx as [-> | [t ->]]; [discriminate|].
      destruct (N.eqb_spec c nl); [contradiction | discriminate].
    + destruct (N.eqb_spec c y) as [->|]; [|discriminate].
      destruct (IH a E) as [a' ->]. now exists a'.
Qed.

Lemma header_tail_has_no_line_end :
  Forall (fun c => c <> nl) (tl profile_header).
Proof. repeat constructor; discriminate. Qed.

Lemma drop_copies (pre x : text) :
  found profile_header pre = false ->
  x = [] \/ (exists t, x = nl :: t) ->
  drop_profiles (pre ++ x) = pre ++ drop_profiles x.
Proof.
  intros Hpre Hx. induction pre as [|c pre IH]; [reflexivity|].
  apply found_cons in Hpre. destruct Hpre as [Hs Hpre].
  rewrite drop_unfold. cbn [app].
  rewrite match_profile_needs_header; [now rewrite IH|].
  destruct (starts_with profile_header (c :: pre ++ x)) eqn:E; [|reflexivity].
  unfold starts_with in E.
  destruct (strip_prefix profile_header (c :: pre ++ x)) as [r|] eqn:F;
    [|discriminate].
  unfold profile_header in F. cbn [strip_prefix] in F.
  destruct (N.eqb_spec nl c) as [<-|]; [|discriminate].
  destruct (strip_prefix_within _ pre x r header_tail_has_no_line_end Hx F)
    as [a' ->].
  assert (starts_with profile_header (nl :: tl profile_header ++ a')
          = true) as Hc by (apply starts_with_iff; now exists a').
  rewrite Hc in Hs. discriminate.
Qed.

Lemma match_profile_section (name body rest : text) :
  name <> [] ->
  Forall (fun c => c <> rbracket) name ->
  Forall (fun c => c <> lbracket) body ->
  rest = [] \/ (exists t, rest = lbracket :: t) ->
  match_profile (profile_header ++ name ++ rbracket :: body ++ rest)
  = Some rest.
Proof.
  intros Hn Hname Hbody Hrest. unfold match_profile.
  assert (E : strip_prefix profile_header
                (profile_header ++ name ++ rbracket :: body ++ rest)
              = Some (name ++ rbracket :: body ++ rest))
    by now apply strip_prefix_Some.
  rewrite E. cbv zeta.
  destruct (take_while_stop (fun c => negb (N.eqb c rbracket)) name
              (body ++ rest) rbracket) as [-> ->].
  - eapply Forall_impl; [|exact Hname]. intros c Hc.
    now apply negb_true_iff, N.eqb_neq.
  - now rewrite N.eqb_refl.
  - destruct name; [contradiction|]. rewrite N.eqb_refl. f_equal.
    rewrite drop_while_all.
    + destruct Hrest as [-> | [t ->]]; [reflexivity|].
      cbn [drop_while]. now rewrite N.eqb_refl.
    + eapply Forall_impl; [|exact Hbody]. intros c Hc.
      now apply negb_true_iff, N.eqb_neq.
Qed.

Lemma drop_keeps_bracket (t : text) :
  drop_profiles (lbracket :: t) = lbracket :: drop_profiles t.
Proof. rewrite drop_unfold. reflexivity. Qed.

(** A text without opening bracket, or with one only in front, has
    nothing to drop. *)
Lemma drop_without_bracket (l : text) :
  Forall (fun c => c <> lbracket) l -> drop_profiles l = l.
Proof.
  induction 1 as [|c l Hc Hl IH]; [reflexivity|].
  rewrite drop_unfold, match_profile_needs_header; [now rewrite IH|].
  unfold starts_with, profile_header. cbn [strip_prefix].
  destruct (N.eqb nl c); [|reflexivity].
  destruct l as [|d l]; [reflexivity|]. cbn [of_string map
    list_ascii_of_string strip_prefix].
  match goal with
  | |- context [N.eqb ?a d] => destruct (N.eqb_spec a d) as [Heq|];
                               [|reflexivity]
  end.
  inversion Hl as [|? ? Hd _]. exfalso. apply Hd. now rewrite <- Heq.
Qed.

(** *** Trailing white space *)

Lemma rstrip_split (l : text) :
  exists sp, l = rstrip l ++ sp /\ Forall (fun c => isspace c = true) sp.
Proof.
  assert (H : forall r, exists sp,
               rev r = rev (drop_while isspace r) ++ sp
               /\ Forall (fun c => isspace c = true) sp).
  { induction r as [|c r IH]; cbn [drop_while].
    - now exists [].
    - destruct (isspace c) eqn:E.
      + destruct IH as [sp [H Hsp]]. exists (sp ++ [c]). split.
        * cbn [rev]. rewrite H at 1. now rewrite <- app_assoc.
        * apply Forall_app. split; [exact Hsp | now constructor].
      + exists []. now rewrite app_nil_r. }
  destruct (H (rev l)) as [sp [E Hsp]]. rewrite rev_involutive in E.
  now exists sp.
Qed.

Lemma rstrip_end (l : text) :
  rstrip l = []
  \/ exists b c, rstrip l = b ++ [c] /\ isspace c = false.
Proof.
  unfold rstrip. pose proof (drop_while_head isspace (rev l)) as H.
  destruct (drop_while isspace (rev l)) as [|c r]; [now left|].
  right. exists (rev r), c. now split.
Qed.

Lemma drop_clean (l : text) :
  found profile_header l = false -> drop_profiles l = l.
Proof.
  intros H. rewrite <- (app_nil_r l) at 1. rewrite drop_copies; auto.
  now rewrite app_nil_r.
Qed.

Lemma text_eqb_refl (l : text) : text_eqb l l = true.
Proof. now apply text_eqb_eq. Qed.

Lemma occurs_in_prefix (sub a b : text) : occurs sub a -> occurs sub (a ++ b).
Proof.
  intros (pre & post & ->). exists pre, (post ++ b).
  now rewrite <- !app_assoc.
Qed.

(** Stripping the end and closing the line makes no blank run. *)
Lemma rstrip_line_no_blank_run (x : text) :
  ~ occurs blank_run x -> ~ occurs blank_run (rstrip x ++ [nl]).
Proof.
  intros Hx (a & b & E).
  destruct b as [|z b0 _] using rev_ind.
  - rewrite app_nil_r in E.
    change blank_run with ([nl; nl] ++ [nl]) in E.
    rewrite app_assoc in E. apply app_inj_tail in E. destruct E as [E _].
    destruct (rstrip_end x) as [F | (b & c & F & Hc)].
    + rewrite F in E. destruct a; discriminate.
    + rewrite F in E. change [nl; nl] with ([nl] ++ [nl]) in E.
      rewrite app_assoc in E. apply app_inj_tail in E.
      destruct E as [_ ->]. discriminate.
  - rewrite !app_assoc in E. apply app_inj_tail in E. destruct E as [E _].
    apply Hx. destruct (rstrip_split x) as (sp & -> & _).
    apply occurs_in_prefix. exists a, b0. now rewrite E, <- app_assoc.
Qed.

End ProfilesFacts.

(** ** Profile sections of a manifest *)

Section ProfileSections.
Import Profiles ProfilesFacts.
Local Open Scope list_scope.

Lemma drop_section (pre name body rest : text) :
  ~ occurs profile_header pre ->
  section_shape name body rest ->
  drop_profiles (pre ++ section_of name body ++ rest)
  = pre ++ drop_profiles rest.
Proof.
  intros Hpre (Hn & Hname & Hbody & Hrest). apply not_found_iff in Hpre.
  rewrite drop_copies; [|exact Hpre | right; now eexists].
  f_equal. rewrite drop_unfold. unfold section_of.
  rewrite <- !app_assoc. cbn [app].
  change (nl :: of_string "[profile." ++ ?x) with (profile_header ++ x).
  now rewrite match_profile_section.
Qed.

(** X1. After the second substitution no three line ends follow one
    another, whatever the text was. *)
Theorem squeeze_leaves_no_blank_run (l : text) :
  ~ occurs blank_run (squeeze_blank_lines l).
Proof.
  apply not_found_iff.
  now apply (squeeze_no_blank_run_bounded (List.length l)).
Qed.

(** X2. The second substitution leaves a text as it is exactly when
    the text has no three line ends in a row. *)
Theorem squeeze_fixes_the_clean_texts (l : text) :
  squeeze_blank_lines l = l <-> ~ occurs blank_run l.
Proof.
  split.
  - intros E. rewrite <- E. apply not_found_iff.
    now apply (squeeze_no_blank_run_bounded (List.length l)).
  - intros H. now apply squeeze_clean, not_found_iff.
Qed.

(** X3. A text in which a line never starts with [[profile.] loses
    nothing to the first substitution. *)
Theorem drop_profiles_without_header (l : text) :
  ~ occurs profile_header l -> drop_profiles l = l.
Proof. intros H. now apply drop_clean, not_found_iff. Qed.

(** X4. A profile section is taken out with its header line, its
    name and its body, and the line end before the header with it;
    the text before stays and the scan goes on behind the body. *)
Theorem drop_profiles_removes_a_section (pre name body rest : text) :
  ~ occurs profile_header pre ->
  section_shape name body rest ->
  drop_profiles (pre ++ section_of name body ++ rest)
  = pre ++ drop_profiles rest.
Proof. apply drop_section. Qed.

(** X5. Of two profile sections that follow one another only the
    first is removed: its body takes the line end in front of the
    second header along, so the second header no longer starts a
    line for the pattern and stays, with its body. *)
Theorem second_adjacent_section_survives
        (pre name1 body1 name2 body2 : text) :
  ~ occurs profile_header pre ->
  name1 <> [] ->
  Forall (fun c => c <> rbracket) name1 ->
  Forall (fun c => c <> lbracket) body1 ->
  Forall (fun c => c <> lbracket) name2 ->
  Forall (fun c => c <> lbracket) body2 ->
  drop_profiles (pre ++ section_of name1 body1 ++ section_of name2 body2)
  = pre ++ tl (section_of name2 body2).
Proof.
  intros Hpre Hn H1 Hb1 H2 Hb2.
  assert (Hclean : Forall (fun c => c <> lbracket)
                     (of_string "profile." ++ name2 ++ rbracket :: body2)).
  { apply Forall_app. split; [repeat constructor; discriminate|].
    apply Forall_app. split; [exact H2|].
    constructor; [discriminate | exact Hb2]. }
  replace (pre ++ section_of name1 body1 ++ section_of name2 body2)
    with (pre ++ section_of name1 (body1 ++ [nl])
              ++ tl (section_of name2 body2)).
  - rewrite drop_section.
    + f_equal.
      change (tl (section_of name2 body2))
        with (lbracket :: (of_string "profile." ++ name2 ++ rbracket :: body2)).
      rewrite drop_keeps_bracket. f_equal.
      now apply drop_without_bracket.
    + exact Hpre.
    + repeat split; auto.
      * apply Forall_app. split; [exact Hb1|]. repeat constructor.
        discriminate.
      * right. now eexists.
  - f_equal. unfold section_of, profile_header. cbn [tl app].
    f_equal. rewrite <- !app_assoc. f_equal. f_equal. cbn [app].
    f_equal. now rewrite <- app_assoc.
Qed.

(** X6. A manifest in which no line starts with [[profile.] and no
    three line ends follow one another is not written: the result is
    [False] and the file keeps its text, trailing blanks and a missing
    last line end included. *)
Theorem clean_manifest_is_left_alone (content : text) :
  ~ occurs profile_header content ->
  ~ occurs blank_run content ->
  remove_profile_sections content = (None, false).
Proof.
  intros H1 H2. unfold remove_profile_sections. cbv zeta.
  rewrite drop_clean by now apply not_found_iff.
  rewrite squeeze_clean by now apply not_found_iff.
  now rewrite text_eqb_refl.
Qed.

(** X7. A manifest with a run of three line ends, or with a profile
    section, is written and the result is [True]; the run of line ends
    is enough, no profile section is needed. *)
Theorem manifest_with_blank_run_or_section_is_rewritten (content : text) :
  occurs blank_run content
  \/ (exists pre name body rest,
        content = pre ++ section_of name body ++ rest
        /\ ~ occurs profile_header pre
        /\ section_shape name body rest) ->
  exists written, remove_profile_sections content = (Some written, true).
Proof.
  intros H. unfold remove_profile_sections. cbv zeta.
  destruct (text_eqb (squeeze_blank_lines (drop_profiles content)) content)
    eqn:E; [|now eexists].
  exfalso. apply text_eqb_eq in E.
  destruct H as [H | (pre & name & body & rest & -> & Hpre & Hshape)].
  - rewrite <- E in H.
    apply (proj1 (not_found_iff _ _)
             (squeeze_no_blank_run_bounded _ _ (le_n _))) in H. exact H.
  - apply (f_equal (@List.length N)) in E.
    pose proof (proj1 (re_sub_length _ _ blank_lines_contracting
                         (drop_profiles
                            (pre ++ section_of name body ++ rest)))) as L1.
    fold (squeeze_blank_lines
            (drop_profiles (pre ++ section_of name body ++ rest))) in L1.
    rewrite drop_section in L1, E by assumption.
    pose proof (proj1 (re_sub_length _ _ profiles_contracting rest)) as L2.
    fold (drop_profiles rest) in L2.
    rewrite !length_app in *. unfold section_of, profile_header in *.
    rewrite !length_app in *. cbn [List.length] in *. lia.
Qed.

(** X8. What is written ends with one line end that follows a
    character which is no white space (or is the whole text), and has
    no three line ends in a row; with a written text the result is
    [True]. *)
Theorem written_text_is_tidy (content written : text) :
  fst (remove_profile_sections content) = Some written ->
  snd (remove_profile_sections content) = true
  /\ (exists body,
        written = body ++ [nl]
        /\ (body = [] \/ exists b c, body = b ++ [c] /\ isspace c = false))
  /\ ~ occurs blank_run written.
Proof.
  unfold remove_profile_sections. cbv zeta.
  destruct (negb _); [|discriminate]. cbn [fst snd]. intros [= <-].
  split; [reflexivity|]. split.
  - eexists. split; [reflexivity|]. apply rstrip_end.
  - apply rstrip_line_no_blank_run, not_found_iff.
    now apply (squeeze_no_blank_run_bounded (List.length (drop_profiles content))).
Qed.

End ProfileSections.

(** The theorems on sample manifests. *)

Section ProfileSamples.
Import Profiles ProfilesFacts.
Local Open Scope list_scope.

Lemma drop_profiles_without_header_sample :
  let l := lines ["[package]"; "name = demo"]%string in
  ~ occurs profile_header l /\ drop_profiles l = l.
Proof.
  intros l.
  assert (H : ~ occurs profile_header l) by (apply not_found_iff; reflexivity).
  split; [exact H | exact (drop_profiles_without_header l H)].
Defined.

Lemma sample_section_shape :
  section_shape (of_string "dev") (lines [""; "opt-level = 0"]%string)
                (of_string "[dependencies]").
Proof.
  split; [discriminate|]. split; [repeat constructor; discriminate|].
  split; [repeat constructor; discriminate | right; now eexists].
Defined.

Lemma drop_profiles_removes_a_section_sample :
  let pre := lines ["[package]"; "name = demo"]%string in
  let name := of_string "dev" in
  let body := lines [""; "opt-level = 0"]%string in
  let rest := of_string "[dependencies]" in
  ~ occurs profile_header pre
  /\ section_shape name body rest
  /\ drop_profiles (pre ++ section_of name body ++ rest)
     = pre ++ drop_profiles rest.
Proof.
  intros pre name body rest.
  assert (H : ~ occurs profile_header pre) by (apply not_found_iff; reflexivity).
  split; [exact H|]. split; [exact sample_section_shape|].
  exact (drop_profiles_removes_a_section pre name body rest H
           sample_section_shape).
Defined.

Lemma second_adjacent_section_survives_sample :
  let pre := lines ["[package]"; "name = demo"]%string in
  let body1 := lines [""; "opt-level = 0"]%string in
  let body2 := lines [""; "opt-level = 3"]%string in
  two_profiles
  = pre ++ section_of (of_string "dev") body1
        ++ section_of (of_string "release") body2
  /\ drop_profiles two_profiles
     = lines ["[package]"; "name = demo"; "[profile.release]";
              "opt-level = 3"]%string.
Proof.
  intros pre body1 body2. split; [reflexivity|].
  change two_profiles
    with (pre ++ section_of (of_string "dev") body1
              ++ section_of (of_string "release") body2).
  rewrite (second_adjacent_section_survives pre (of_string "dev") body1
             (of_string "release") body2).
  - reflexivity.
  - apply not_found_iff. reflexivity.
  - discriminate.
  - repeat constructor; discriminate.
  - repeat constructor; discriminate.
  - repeat constructor; discriminate.
  - repeat constructor; discriminate.
Defined.

Lemma clean_manifest_is_left_alone_sample :
  let content := of_string "[package]  " in
  ~ occurs profile_header content
  /\ ~ occurs blank_run content
  /\ remove_profile_sections content = (None, false).
Proof.
  intros content.
  assert (H1 : ~ occurs profile_header content)
    by (apply not_found_iff; reflexivity).
  assert (H2 : ~ occurs blank_run content)
    by (apply not_found_iff; reflexivity).
  split; [exact H1|]. split; [exact H2|].
  exact (clean_manifest_is_left_alone content H1 H2).
Defined.

Lemma manifest_with_blank_run_is_rewritten_sample :
  let content := lines ["[package]"; ""; ""; "name = demo"]%string in
  occurs blank_run content
  /\ exists written, remove_profile_sections content = (Some written, true).
Proof.
  intros content.
  assert (H : occurs blank_run content) by (apply found_iff; reflexivity).
  split; [exact H|].
  exact (manifest_with_blank_run_or_section_is_rewritten content (or_introl H)).
Defined.

Lemma written_text_is_tidy_sample :
  let written := lines ["[package]"; "name = demo"; "[profile.release]";
                        "opt-level = 3"]%string in
  fst (remove_profile_sections two_profiles) = Some written
  /\ ~ occurs blank_run written.
Proof.
  intros written.
  assert (H : fst (remove_profile_sections two_profiles) = Some written)
    by reflexivity.
  split; [exact H|].
  exact (proj2 (proj2 (written_text_is_tidy two_profiles written H))).
Defined.

End ProfileSamples.

(** ** Whole runs of the handlers *)

Section WholeRuns.
Local Open Scope list_scope.
Variable env : Env.

Lemma new_message_invalid prefix sender content read status type_ metadata st :
  (forall s, content <> JStr s) ->
  new_message env prefix sender content read status type_ metadata st
  = (Raised ValidationError, bumped st).
Proof.
  intros H. destruct content; try reflexivity. now destruct (H s).
Qed.

(** The four ways an iteration of the loop can end. *)
Lemma on_text_cases (data : text) (st : State) :
  (exists e, on_text env data st = (Raised e, st))
  \/ on_text env data st = (Ok tt, st)
  \/ (exists c, on_text env data st = (Ok tt, after_send_message env c st))
  \/ on_text env data st = (Raised ValidationError, bumped st).
Proof.
  destruct data as [|v]; [left; now eexists|].
  destruct v as [| | | | |items|d];
    try (left; eexists; reflexivity).
  destruct (json_eq_str (dict_get "type" JNull d) "send-message") eqn:Ety.
  - apply json_eq_str_true in Ety.
    destruct (dict_get "content" (JStr "") d) as [| | | |c| |] eqn:Ec;
      try (right; right; right; unfold on_text;
           run (eq_refl : json_loads (JSON (JDict d)) st = (Ok (JDict d), st));
           run (eq_refl : py_get (JDict d) "type" JNull st
                          = (Ok (dict_get "type" JNull d), st));
           rewrite Ety; cbn [json_eq_str]; rewrite String.eqb_refl;
           run (eq_refl : py_get (JDict d) "content" (JStr "") st
                          = (Ok (dict_get "content" (JStr "") d), st));
           rewrite Ec; erewrite bind_raised;
           [reflexivity | apply new_message_invalid; discriminate]).
    right; right; left. exists c. now apply on_text_send_message.
  - right; left. apply on_text_other_type.
    intros H. apply json_eq_str_true in H. congruence.
Qed.

Lemma on_text_classified (i : inbound) (st : State) :
  match classify i with
  | Some PassedOver =>
      exists data, i = Frame data /\ on_text env data st = (Ok tt, st)
  | Some (Answered c) =>
      exists data, i = Frame data
                   /\ on_text env data st
                      = (Ok tt, after_send_message env c st)
  | None => True
  end.
Proof.
  destruct i as [[|v]|]; try exact I.
  destruct v as [| | | | |items|d]; try exact I. cbn [classify].
  destruct (json_eq_str (dict_get "type" JNull d) "send-message") eqn:Ety.
  - apply json_eq_str_true in Ety.
    destruct (dict_get "content" (JStr "") d) eqn:Ec; try exact I.
    eexists. split; [reflexivity|]. now apply on_text_send_message.
  - eexists. split; [reflexivity|]. apply on_text_other_type.
    intros H. apply json_eq_str_true in H. congruence.
Qed.

Lemma notify_build_ok (n : Build.Notification) (st : State) :
  notify_build env n st
  = (Ok [("success", JBool true)]%string,
     after_publish env (notification_entry env (created st) n) st).
Proof.
  unfold notify_build. cbv zeta. rewrite emoji_table, kind_table.
  rewrite !detail_shown.
  change (format_value env (JStr "N/A")) with "N/A"%string.
  change (format_value env (JInt 0)) with "0"%string.
  run new_message_ok. run messages_append_ok. run broadcast_ok.
  reflexivity.
Qed.

(** What the endpoint leaves is what its loop leaves, but for the
    connection taken out on disconnect. *)
Lemma websocket_endpoint_state websocket inbox st :
  let st0 := with_connections st (active_connections st ++ [websocket]) in
  let st1 := snd (receive_loop env websocket inbox st0) in
  snd (websocket_endpoint env websocket inbox st) = st1
  \/ exists l, list_remove websocket (active_connections st1) = Some l
               /\ snd (websocket_endpoint env websocket inbox st)
                  = with_connections st1 l.
Proof.
  intros st0 st1. unfold websocket_endpoint.
  run (eq_refl : register websocket st = (Ok tt, st0)).
  unfold try_except. subst st1.
  destruct (receive_loop env websocket inbox st0) as [[r|e] s1]; cbn [snd].
  - now left.
  - destruct (exn_eqb e WebSocketDisconnect); [|now left].
    unfold bind at 1, unregister, bind, get_state.
    destruct (list_remove websocket (active_connections s1)) as [l|] eqn:E.
    + right. now exists l.
    + now left.
Qed.

(** *** A relation kept along a run *)

Section Along.
Variable R : State -> State -> Prop.
Hypothesis R_refl : forall st, R st st.
Hypothesis R_trans : forall a b c, R a b -> R b c -> R a c.
Hypothesis R_receive : forall websocket st, R st (after_receive websocket st).
Hypothesis R_answer : forall c st, R st (after_send_message env c st).
Hypothesis R_bumped : forall st, R st (bumped st).

Lemma on_text_along data st : R st (snd (on_text env data st)).
Proof.
  destruct (on_text_cases data st) as [[e ->] | [-> | [[c ->] | ->]]];
    cbn [snd]; auto.
Qed.

Lemma receive_loop_along websocket inbox :
  forall st, R st (snd (receive_loop env websocket inbox st)).
Proof.
  induction inbox as [|i rest IH]; intros st; [apply R_refl|].
  destruct i as [data|]; [|apply R_refl].
  rewrite receive_loop_frame. unfold bind.
  pose proof (on_text_along data (after_receive websocket st)) as H.
  destruct (on_text env data (after_receive websocket st)) as [[[]|e] s1];
    cbn [snd] in *.
  - eapply R_trans; [apply R_receive|]. eapply R_trans; [exact H | apply IH].
  - eapply R_trans; [apply R_receive | exact H].
Qed.

Hypothesis R_connections : forall st l, R st (with_connections st l).

Lemma websocket_endpoint_along websocket inbox st :
  R st (snd (websocket_endpoint env websocket inbox st)).
Proof.
  destruct (websocket_endpoint_state websocket inbox st)
    as [-> | (l & _ & ->)].
  - eapply R_trans; [apply R_connections | apply receive_loop_along].
  - eapply R_trans; [apply R_connections|].
    eapply R_trans; [apply receive_loop_along | apply R_connections].
Qed.

End Along.

End WholeRuns.

(** ** The log along a run *)

Section LogAlongRuns.
Local Open Scope list_scope.
Variable env : Env.

Lemma bot_reply_kind (user_message : string) :
  In (snd (bot_reply user_message)) kinds.
Proof.
  unfold bot_reply, kinds. cbv zeta.
  repeat match goal with
         | |- context [if ?b then _ else _] => destruct b
         end; cbn [snd In]; auto.
Qed.

Lemma build_kind_kind (status : string) : In (build_kind status) kinds.
Proof.
  unfold build_kind, kinds.
  repeat match goal with
         | |- context [if ?b then _ else _] => destruct b
         end; cbn [In]; auto.
Qed.

Lemma user_entry_ok k c : entry_ok (user_entry env k c).
Proof. left. repeat split. Qed.

Lemma bot_entry_ok k c : entry_ok (bot_entry env k c).
Proof. right. repeat split. apply bot_reply_kind. Qed.

Lemma notification_entry_ok k n : entry_ok (notification_entry env k n).
Proof. right. repeat split. apply build_kind_kind. Qed.

Lemma logged_refl st : logged st st.
Proof.
  exists []. rewrite app_nil_r. cbn [List.length].
  repeat split; [constructor | lia | lia].
Qed.

Lemma logged_trans a b c : logged a b -> logged b c -> logged a c.
Proof.
  intros (x & Hx & Fx & Px & Cx) (y & Hy & Fy & Py & Cy).
  exists (x ++ y). rewrite Hy, Hx, <- app_assoc, length_app.
  repeat split; [now apply Forall_app | lia | lia].
Qed.

Lemma logged_same_log st st' :
  messages st' = messages st -> passes st' = passes st ->
  created st <= created st' -> logged st st'.
Proof.
  intros Hm Hp Hc. exists []. rewrite app_nil_r. cbn [List.length].
  repeat split; [exact Hm | constructor | lia | lia].
Qed.

Lemma logged_publish m st : entry_ok m -> logged st (after_publish env m st).
Proof.
  intros Hm. exists [m]. unfold after_publish, after_broadcast.
  cbn [messages passes created List.length].
  repeat split; [now constructor | lia | lia].
Qed.

Lemma logged_answer c st : logged st (after_send_message env c st).
Proof.
  unfold after_send_message. cbv zeta.
  eapply logged_trans; [apply logged_publish, user_entry_ok|].
  eapply logged_trans; [|apply logged_publish, bot_entry_ok].
  apply logged_same_log; cbn [after_sleep messages passes created]; auto.
Qed.

Lemma logged_endpoint websocket inbox st :
  logged st (snd (websocket_endpoint env websocket inbox st)).
Proof.
  apply websocket_endpoint_along;
    auto using logged_refl, logged_answer.
  - apply logged_trans.
  - intros; apply logged_same_log; cbn; auto.
  - intros; apply logged_same_log; cbn; auto.
  - intros; apply logged_same_log; cbn; auto.
Qed.

Lemma logged_notify n st : logged st (snd (notify_build env n st)).
Proof.
  rewrite notify_build_ok. cbn [snd].
  apply logged_publish, notification_entry_ok.
Qed.

(** X9. The log is only ever appended to.  Whatever frames a session
    gets and however it ends, by waiting, by disconnect or by an
    exception, the log it leaves is the log it found followed by new
    entries, and there was one pass of [broadcast] for each new entry;
    the same holds for [notify_build]. *)
Theorem runs_only_append_to_the_log :
  (forall websocket inbox st,
      let st' := snd (websocket_endpoint env websocket inbox st) in
      exists added,
        messages st' = messages st ++ added
        /\ passes st' = passes st + List.length added)
  /\ (forall n st,
         let st' := snd (notify_build env n st) in
         exists added,
           messages st' = messages st ++ added
           /\ passes st' = passes st + List.length added).
Proof.
  split.
  - intros websocket inbox st st'.
    destruct (logged_endpoint websocket inbox st) as (a & H & _ & P & _).
    now exists a.
  - intros n st st'. destruct (logged_notify n st) as (a & H & _ & P & _).
    now exists a.
Qed.

(** X10. Every entry a run adds has the shape the model's comments give:
    the sender is user or bot; a user's entry is read, sent and of
    kind text; a bot's entry is unread, delivered and of kind text,
    notification, alert or success. *)
Theorem runs_log_entries_of_the_known_shape :
  (forall websocket inbox st,
      exists added,
        messages (snd (websocket_endpoint env websocket inbox st))
        = messages st ++ added
        /\ Forall entry_ok added)
  /\ (forall n st,
         exists added,
           messages (snd (notify_build env n st)) = messages st ++ added
           /\ Forall entry_ok added).
Proof.
  split.
  - intros websocket inbox st.
    destruct (logged_endpoint websocket inbox st) as (a & H & F & _).
    now exists a.
  - intros n st. destruct (logged_notify n st) as (a & H & F & _).
    now exists a.
Qed.

(** *** Unread entries along a run *)

Lemma get_unread_count st :
  get_unread st = [("unread"%string, JInt (Z.of_nat (unread_count st)))].
Proof. unfold get_unread, unread_count. now rewrite sum_of_ones. Qed.

Lemma unread_count_app st st' added :
  messages st' = messages st ++ added ->
  unread_count st' = unread_count st + List.length (filter unread_from_botb added).
Proof.
  intros H. unfold unread_count. now rewrite H, filter_app, length_app.
Qed.

(** X11. No run lowers the number [get_unread] reports: nothing marks an
    entry as read and nothing deletes one.  [notify_build] raises it
    by one. *)
Theorem unread_count_never_drops :
  (forall websocket inbox st,
      unread_count st
      <= unread_count (snd (websocket_endpoint env websocket inbox st)))
  /\ (forall n st,
         unread_count (snd (notify_build env n st)) = S (unread_count st))
  /\ (forall st,
         get_unread st
         = [("unread"%string, JInt (Z.of_nat (unread_count st)))]).
Proof.
  split; [|split].
  - intros websocket inbox st.
    destruct (logged_endpoint websocket inbox st) as (a & H & _).
    rewrite (unread_count_app _ _ _ H). lia.
  - intros n st. rewrite notify_build_ok. cbn [snd].
    unfold unread_count, after_publish, after_broadcast. cbn [messages].
    rewrite filter_app, length_app. cbn. lia.
  - apply get_unread_count.
Qed.

End LogAlongRuns.

(** ** Sessions that run to their end *)

Section Sessions.
Local Open Scope list_scope.
Variable env : Env.

Lemma filter_twice {A} (f g : A -> bool) (l : list A) :
  filter g (filter f l) = filter (fun x => f x && g x) l.
Proof.
  induction l as [|x l IH]; [reflexivity|]. cbn [filter].
  destruct (f x); cbn [filter andb]; [|exact IH].
  destruct (g x); now rewrite IH.
Qed.

Lemma pruned_refl l : pruned env l l.
Proof. exists (fun _ => true). split; [now rewrite filter_true | auto]. Qed.

Lemma pruned_trans a b c : pruned env a b -> pruned env b c -> pruned env a c.
Proof.
  intros (f & -> & Hf) (g & -> & Hg). exists (fun x => f x && g x).
  split; [apply filter_twice|]. intros x Hx. now rewrite Hf, Hg.
Qed.

Lemma pruned_answer c st :
  pruned env (active_connections st)
         (active_connections (after_send_message env c st)).
Proof.
  rewrite after_send_message_connections.
  apply pruned_trans
    with (filter (send_json_ok env (passes st)) (active_connections st)).
  - exists (send_json_ok env (passes st)). split; [reflexivity|].
    intros x H. apply H.
  - exists (send_json_ok env (S (passes st))). split; [reflexivity|].
    intros x H. apply H.
Qed.

Lemma unread_after_answer c st :
  unread_count (after_send_message env c st) = S (unread_count st).
Proof.
  unfold unread_count. rewrite after_send_message_messages.
  rewrite filter_app, length_app. cbn. lia.
Qed.

Lemma created_after_answer c st :
  created (after_send_message env c st) = S (S (created st)).
Proof. reflexivity. Qed.

Lemma answered_cons i rest :
  answered (i :: rest)
  = match classify i with
    | Some (Answered _) => S (answered rest)
    | _ => answered rest
    end.
Proof.
  unfold answered. cbn [filter].
  now destruct (classify i) as [[|c]|].
Qed.

(** The loop on frames it gets through. *)
Lemma receive_loop_classified websocket inbox :
  forall st,
    Forall (fun i => classify i <> None) inbox ->
    exists st',
      receive_loop env websocket inbox st = (Ok Receiving, st')
      /\ messages st' = messages st ++ conversation env (created st) inbox
      /\ List.length (conversation env (created st) inbox) = 2 * answered inbox
      /\ unread_count st' = unread_count st + answered inbox
      /\ pruned env (active_connections st) (active_connections st').
Proof.
  induction inbox as [|i rest IH]; intros st Hall.
  - exists st. cbn. rewrite app_nil_r.
    repeat split; auto using pruned_refl.
  - inversion Hall as [|? ? Hi Hrest]; subst.
    pose proof (on_text_classified env i (after_receive websocket st)) as Hc.
    rewrite answered_cons. cbn [conversation].
    destruct (classify i) as [[|c]|]; [| |contradiction].
    + destruct Hc as (data & -> & Hrun).
      rewrite receive_loop_frame. run Hrun.
      destruct (IH (after_receive websocket st) Hrest)
        as (st' & E & Hm & Hl & Hu & Hp).
      exists st'. repeat split; assumption.
    + destruct Hc as (data & -> & Hrun).
      rewrite receive_loop_frame. run Hrun.
      destruct (IH (after_send_message env c (after_receive websocket st))
                   Hrest) as (st' & E & Hm & Hl & Hu & Hp).
      rewrite created_after_answer, after_send_message_messages,
        unread_after_answer in *.
      cbn [after_receive created messages] in *.
      exists st'. split; [exact E|]. split; [now rewrite Hm, <- app_assoc|].
      split; [cbn [List.length]; lia|]. split.
      * rewrite Hu. unfold unread_count. cbn [after_receive messages]. lia.
      * eapply pruned_trans; [|exact Hp].
        apply (pruned_answer c (after_receive websocket st)).
Qed.

Lemma receive_loop_then_disconnect websocket inbox rest :
  forall st st',
    receive_loop env websocket inbox st = (Ok Receiving, st') ->
    receive_loop env websocket (inbox ++ Disconnect :: rest) st
    = (Raised WebSocketDisconnect, st').
Proof.
  induction inbox as [|i more IH]; intros st st' H.
  - injection H as <-. reflexivity.
  - destruct i as [data|]; [|discriminate].
    cbn [app]. rewrite receive_loop_frame in *. unfold bind in *.
    destruct (on_text env data (after_receive websocket st)) as [[[]|e] s1];
      [now apply IH | discriminate].
Qed.

(** X12. A session whose frames are all objects, the [send-message] ones
    with a string (or nothing) as content, never raises: the loop gets
    through every frame, logs for each [send-message] the user's entry
    and then the bot's, passes over the others, and ends waiting for
    the next frame; [get_unread] has gone up by one per answered
    frame. *)
Theorem loop_answers_every_message websocket inbox st :
  Forall (fun i => classify i <> None) inbox ->
  exists st',
    receive_loop env websocket inbox st = (Ok Receiving, st')
    /\ messages st' = messages st ++ conversation env (created st) inbox
    /\ List.length (conversation env (created st) inbox) = 2 * answered inbox
    /\ unread_count st' = unread_count st + answered inbox.
Proof.
  intros H.
  destruct (receive_loop_classified websocket inbox st H)
    as (st' & E & Hm & Hl & Hu & _).
  now exists st'.
Qed.

(** X13. A connection that was not registered before, to which every send
    succeeds and whose frames are all got through, leaves cleanly on
    disconnect: the endpoint returns, the connection is out of the
    registry, the registry holds nothing it did not hold before, and
    the log has the session's conversation. *)
Theorem live_session_disconnects_cleanly websocket inbox st :
  ~ In websocket (active_connections st) ->
  (forall k, send_json_ok env k websocket = true) ->
  Forall (fun i => classify i <> None) inbox ->
  exists st',
    websocket_endpoint env websocket (inbox ++ [Disconnect]) st
    = (Ok Closed, st')
    /\ ~ In websocket (active_connections st')
    /\ pruned env (active_connections st) (active_connections st')
    /\ messages st' = messages st ++ conversation env (created st) inbox.
Proof.
  intros Hfresh Hlive Hall.
  set (st0 := with_connections st (active_connections st ++ [websocket])).
  destruct (receive_loop_classified websocket inbox st0 Hall)
    as (st1 & E & Hm & _ & _ & (keep & Hreg & Hkeep)).
  cbn [st0 with_connections active_connections messages created] in Hm, Hreg.
  rewrite filter_app in Hreg. cbn [filter] in Hreg.
  rewrite (Hkeep websocket Hlive) in Hreg.
  assert (Hout : ~ In websocket (filter keep (active_connections st))).
  { intros [Hin _]%filter_In. contradiction. }
  exists (with_connections st1 (filter keep (active_connections st) ++ [])).
  split.
  - unfold websocket_endpoint.
    run (eq_refl : register websocket st = (Ok tt, st0)).
    unfold try_except.
    rewrite (receive_loop_then_disconnect websocket inbox [] st0 st1 E).
    cbn [exn_eqb].
    run (unregister_present websocket (filter keep (active_connections st))
           [] st1 Hreg Hout).
    reflexivity.
  - cbn [with_connections active_connections messages]. rewrite app_nil_r.
    split; [exact Hout|]. split; [|exact Hm]. now exists keep.
Qed.

(** X14. A session puts no connection into the registry but its own and
    takes connections out only; a registry without duplicates that
    did not hold the connection is without duplicates afterwards.
    [notify_build] only takes connections out. *)
Theorem session_registers_only_itself :
  (forall websocket inbox st,
      let st' := snd (websocket_endpoint env websocket inbox st) in
      (forall c, In c (active_connections st') ->
                 In c (active_connections st) \/ c = websocket)
      /\ (NoDup (active_connections st) ->
          ~ In websocket (active_connections st) ->
          NoDup (active_connections st')))
  /\ (forall n st,
         pruned env (active_connections st)
                (active_connections (snd (notify_build env n st)))).
Proof.
  split.
  - intros websocket inbox st st'.
    set (st0 := with_connections st (active_connections st ++ [websocket])).
    assert (Hp : pruned env (active_connections st0)
                   (active_connections
                      (snd (receive_loop env websocket inbox st0)))).
    { apply (receive_loop_along env
               (fun a b => pruned env (active_connections a)
                                  (active_connections b)));
        intros; try apply pruned_refl.
      - eapply pruned_trans; eassumption.
      - apply pruned_answer. }
    destruct Hp as (keep & Hreg & _).
    cbn [st0 with_connections active_connections] in Hreg.
    destruct (websocket_endpoint_state env websocket inbox st)
      as [E | (l & Hl & E)]; fold st0 in E; try fold st0 in Hl;
      subst st'; rewrite E.
    + rewrite Hreg. split.
      * intros c [Hc _]%filter_In. apply in_app_or in Hc.
        destruct Hc as [Hc | [<- | []]]; auto.
      * intros Hnd Hfresh. apply NoDup_filter.
        apply NoDup_app; [exact Hnd | repeat constructor; auto |].
        intros x Hx [<- | []]. contradiction.
    + cbn [with_connections active_connections].
      apply list_remove_Some in Hl.
      destruct Hl as (pre & rest & Hsplit & _ & ->).
      rewrite Hreg in Hsplit. split.
      * intros c Hc.
        assert (Hin : In c (filter keep (active_connections st ++ [websocket]))).
        { rewrite Hsplit. apply in_or_app. apply in_app_or in Hc.
          destruct Hc; [now left | right; now right]. }
        apply filter_In in Hin. destruct Hin as [Hin _].
        apply in_app_or in Hin. destruct Hin as [Hin | [<- | []]]; auto.
      * intros Hnd Hfresh.
        assert (Hall : NoDup (filter keep (active_connections st ++ [websocket]))).
        { apply NoDup_filter.
          apply NoDup_app; [exact Hnd | repeat constructor; auto |].
          intros x Hx [<- | []]. contradiction. }
        rewrite Hsplit in Hall. now apply NoDup_remove_1 in Hall.
  - intros n st. rewrite notify_build_ok. cbn [snd].
    eexists. split; [reflexivity | auto].
Qed.

End Sessions.

(** ** Identifiers *)

Section Identifiers.
Local Open Scope list_scope.
Variable env : Env.

Lemma sorted_snoc (ks : list nat) (k : nat) :
  StronglySorted lt ks -> Forall (fun j => j < k) ks ->
  StronglySorted lt (ks ++ [k]).
Proof.
  induction 1 as [|j ks Hs IH Hj]; intros Hall; cbn [app].
  - repeat constructor.
  - inversion Hall as [|? ? Hjk Hrest]; subst. constructor; [now apply IH|].
    apply Forall_app. split; [exact Hj | now repeat constructor].
Qed.

Lemma built_weaken st st' :
  messages st' = messages st -> created st <= created st' ->
  built_in_order env st -> built_in_order env st'.
Proof.
  intros Hm Hc (ks & Hn & Hs & Hb). exists ks. rewrite Hm.
  repeat split; auto. eapply Forall_impl; [|exact Hb]. intros; cbn in *; lia.
Qed.

Lemma built_publish m st :
  numbered env m (created st) ->
  built_in_order env st -> built_in_order env (after_publish env m st).
Proof.
  intros Hm (ks & Hn & Hs & Hb). exists (ks ++ [created st]).
  unfold after_publish, after_broadcast. cbn [messages created].
  repeat split.
  - apply Forall2_app; [exact Hn | constructor; [exact Hm | constructor]].
  - now apply sorted_snoc.
  - apply Forall_app. split.
    + eapply Forall_impl; [|exact Hb]. intros; cbn in *; lia.
    + repeat constructor.
Qed.

Lemma built_answer c st :
  built_in_order env st -> built_in_order env (after_send_message env c st).
Proof.
  intros H. unfold after_send_message. cbv zeta.
  apply built_publish; [now left|].
  apply (built_weaken (after_publish env (user_entry env (created st) c) st));
    [reflexivity | cbn; lia |].
  apply built_publish; [now left | exact H].
Qed.

Lemma built_endpoint websocket inbox st :
  built_in_order env st ->
  built_in_order env (snd (websocket_endpoint env websocket inbox st)).
Proof.
  apply (websocket_endpoint_along env
           (fun a b => built_in_order env a -> built_in_order env b));
    cbv beta.
  - auto.
  - auto.
  - intros ws st0 H. now apply (built_weaken st0).
  - apply built_answer.
  - intros st0 H. apply (built_weaken st0); cbn; auto.
  - intros st0 l H. now apply (built_weaken st0).
Qed.

Lemma built_notify n st :
  built_in_order env st ->
  built_in_order env (snd (notify_build env n st)).
Proof.
  rewrite notify_build_ok. cbn [snd]. apply built_publish. now right.
Qed.

Lemma numbered_apart m m' k k' :
  (forall i j, uuid4 env i = uuid4 env j -> i = j) ->
  numbered env m k -> numbered env m' k' -> id m = id m' -> k = k'.
Proof.
  intros Hinj [H | H] [H' | H'] E; rewrite H, H' in E;
    try discriminate; injection E as E; now apply Hinj.
Qed.

Lemma built_distinct st :
  (forall i j, uuid4 env i = uuid4 env j -> i = j) ->
  built_in_order env st -> NoDup (map id (messages st)).
Proof.
  intros Hinj (ks & Hn & Hs & _). revert Hs.
  induction Hn as [|m k ms ks Hm Hn IH]; intros Hs; cbn [map];
    [constructor|].
  inversion Hs as [|? ? Hs' Hk]; subst. constructor; [|now apply IH].
  intros Hin. apply in_map_iff in Hin. destruct Hin as (m' & E & Hin).
  clear IH Hs Hs'. induction Hn as [|m2 k2 ms ks Hm2 Hn IH].
  - destruct Hin.
  - inversion Hk as [|? ? Hlt Hk']; subst. destruct Hin as [<- | Hin].
    + pose proof (numbered_apart _ _ _ _ Hinj Hm Hm2 (eq_sym E)). lia.
    + now apply IH.
Qed.

(** X15. When no two draws of [uuid4] give the same value, no two entries
    of the log have the same [id]: a log whose entries were built one
    after the other stays such a log through every session and every
    [notify_build], and in such a log the identifiers are pairwise
    different. *)
Theorem entry_ids_stay_distinct (st : State) :
  (forall i j, uuid4 env i = uuid4 env j -> i = j) ->
  built_in_order env st ->
  (forall websocket inbox,
      let st' := snd (websocket_endpoint env websocket inbox st) in
      built_in_order env st' /\ NoDup (map id (messages st')))
  /\ (forall n,
         let st' := snd (notify_build env n st) in
         built_in_order env st' /\ NoDup (map id (messages st'))).
Proof.
  intros Hinj Hb. split.
  - intros websocket inbox st'.
    assert (H : built_in_order env st') by now apply built_endpoint.
    split; [exact H | now apply built_distinct].
  - intros n st'.
    assert (H : built_in_order env st') by now apply built_notify.
    split; [exact H | now apply built_distinct].
Qed.

End Identifiers.

(** ** Letter case in the responder *)

Section LetterCase.
Import PyStr.

Lemma question_mark_lower (c : ascii) :
  Ascii.eqb "?" (lower_ascii c) = Ascii.eqb "?" c.
Proof. destruct c as [[] [] [] [] [] [] [] []]; vm_compute; reflexivity. Qed.

Lemma contains_question_mark (s : string) :
  contains "?" (lower s) = contains "?" s.
Proof.
  induction s as [|c s IH]; [reflexivity|].
  cbn [lower contains startswith]. now rewrite question_mark_lower, IH.
Qed.

(** X16. Two texts that differ in the case of their ASCII letters only get
    the same reply: the keywords are looked for in the lower-cased
    text, and lower-casing neither makes nor removes a question
    mark. *)
Theorem bot_reply_ignores_case (m m' : string) :
  lower m = lower m' -> bot_reply m = bot_reply m'.
Proof.
  intros H. unfold bot_reply. cbv zeta.
  rewrite <- (contains_question_mark m), <- (contains_question_mark m').
  now rewrite H.
Qed.

End LetterCase.

(** ** Limits of the recent-messages query *)

Section Limits.
Local Open Scope list_scope.

(** X17. Whatever the limit, [get_messages] returns an end piece of
    the log, in log order.  A positive limit gives the last entries,
    as many as the limit or as the log has.  For a limit of zero or
    below it does not limit at all: [messages[-limit:]] then starts at
    index [-limit], so the limit [-k] gives the log without its [k]
    oldest entries. *)
Theorem get_messages_returns_an_end_piece (st : State) :
  (forall limit, exists older,
        messages st = older ++ get_messages limit st)
  /\ (forall n, 0 < n ->
         get_messages (Some (Z.of_nat n)) st = last_entries n (messages st)
         /\ List.length (get_messages (Some (Z.of_nat n)) st)
            = Nat.min n (List.length (messages st)))
  /\ (forall k, get_messages (Some (- Z.of_nat k)%Z) st
                = skipn k (messages st)).
Proof.
  split; [|split].
  - intros limit. unfold get_messages, slice_from. eexists.
    symmetry. apply firstn_skipn.
  - intros n Hn. unfold get_messages. rewrite slice_from_last by assumption.
    split; [reflexivity | apply last_entries_length].
  - intros k. unfold get_messages, slice_from.
    rewrite Z.opp_involutive.
    destruct (Z.ltb_spec (Z.of_nat k) 0) as [H|_]; [lia|].
    destruct (Nat.le_gt_cases k (List.length (messages st))) as [Hk|Hk].
    + f_equal. lia.
    + replace (Z.to_nat (Z.min (Z.of_nat k)
                           (Z.of_nat (List.length (messages st)))))
        with (List.length (messages st)) by lia.
      rewrite !skipn_all2; auto; lia.
Qed.

End Limits.

(** ** The further properties on sample runs *)

Section FurtherSamples.
Local Open Scope list_scope.

Lemma loop_answers_every_message_sample :
  let inbox := [Sample.send_message "build";
                Frame (JSON (JDict [("type", JStr "ping")]));
                Sample.send_message "hi"]%string in
  Forall (fun i => classify i <> None) inbox
  /\ exists st',
       receive_loop Sample.env 1 inbox Sample.three_connected
       = (Ok Receiving, st')
       /\ map type_ (messages st')
          = ["text"; "notification"; "text"; "text"]%string
       /\ unread_count st' = 2.
Proof.
  intros inbox.
  assert (H : Forall (fun i => classify i <> None) inbox)
    by (repeat constructor; discriminate).
  split; [exact H|].
  destruct (loop_answers_every_message Sample.env 1 inbox
              Sample.three_connected H) as (st' & E & Hm & _ & Hu).
  exists st'. rewrite Hm, Hu. repeat split; [exact E | reflexivity..].
Defined.

Lemma live_session_disconnects_cleanly_sample :
  let inbox := [Sample.send_message "status"]%string in
  ~ In 5 (active_connections Sample.three_connected)
  /\ (forall k, send_json_ok Sample.env k 5 = true)
  /\ Forall (fun i => classify i <> None) inbox
  /\ exists st',
       websocket_endpoint Sample.env 5 (inbox ++ [Disconnect])
                          Sample.three_connected
       = (Ok Closed, st')
       /\ ~ In 5 (active_connections st').
Proof.
  intros inbox.
  assert (H1 : ~ In 5 (active_connections Sample.three_connected))
    by (cbn; intuition discriminate).
  assert (H2 : forall k, send_json_ok Sample.env k 5 = true)
    by (intros k; reflexivity).
  assert (H3 : Forall (fun i => classify i <> None) inbox)
    by (repeat constructor; discriminate).
  split; [exact H1|]. split; [exact H2|]. split; [exact H3|].
  destruct (live_session_disconnects_cleanly Sample.env 5 inbox
              Sample.three_connected H1 H2 H3) as (st' & E & Hout & _).
  now exists st'.
Defined.

Lemma to_uint_not_nil (n : nat) : Nat.to_uint n <> Decimal.Nil.
Proof.
  intros H. pose proof (DecimalNat.Unsigned.of_to n) as E.
  rewrite H in E. cbn in E. subst n. discriminate.
Defined.

Lemma sample_uuid4_injective (i j : nat) :
  uuid4 Sample.env i = uuid4 Sample.env j -> i = j.
Proof.
  cbn [Sample.env uuid4]. intros E.
  apply DecimalNat.Unsigned.to_uint_inj.
  apply (f_equal NilZero.uint_of_string) in E.
  rewrite !NilZero.usu in E by apply to_uint_not_nil.
  now injection E.
Defined.

Lemma initial_built_in_order : built_in_order Sample.env initial.
Proof. exists []. repeat split; constructor. Defined.

Lemma entry_ids_stay_distinct_sample :
  built_in_order Sample.env initial
  /\ NoDup (map id (messages
                      (snd (websocket_endpoint Sample.env 1
                              [Sample.send_message "hi";
                               Sample.send_message "hi"]%string
                              initial)))).
Proof.
  split; [exact initial_built_in_order|].
  exact (proj2 (proj1 (entry_ids_stay_distinct Sample.env initial
                         sample_uuid4_injective initial_built_in_order)
                      1 [Sample.send_message "hi";
                         Sample.send_message "hi"]%string)).
Defined.

Lemma bot_reply_ignores_case_sample :
  PyStr.lower "Build STATUS" = PyStr.lower "build status"
  /\ bot_reply "Build STATUS" = bot_reply "build status".
Proof.
  split; [reflexivity|].
  exact (bot_reply_ignores_case "Build STATUS" "build status" eq_refl).
Defined.

End FurtherSamples.

(** ** A session whose connection has gone away *)

Section DeadSession.
Local Open Scope list_scope.
Variable env : Env.
Variable websocket : WebSocket.

Let absent (st : State) : Prop := ~ In websocket (active_connections st).

Lemma absent_kept inbox st :
  absent st -> absent (snd (receive_loop env websocket inbox st)).
Proof.
  apply (receive_loop_along env (fun a b => absent a -> absent b));
    cbv beta; auto.
  intros c st0 H Hin. apply H.
  rewrite after_send_message_connections in Hin.
  apply filter_In in Hin. destruct Hin as [Hin _].
  apply filter_In in Hin. now destruct Hin.
Qed.

Lemma absent_after_answer c st :
  send_json_ok env (passes st) websocket = false ->
  absent (after_send_message env c st).
Proof.
  intros Hdead Hin. rewrite after_send_message_connections in Hin.
  apply filter_In in Hin. destruct Hin as [Hin _].
  apply filter_In in Hin. destruct Hin as [_ Hok]. congruence.
Qed.

Lemma absent_after_loop inbox :
  forall st,
    (forall k, send_json_ok env k websocket = false) ->
    Forall (fun i => classify i <> None) inbox ->
    0 < answered inbox ->
    exists st', receive_loop env websocket inbox st = (Ok Receiving, st')
                /\ absent st'.
Proof.
  induction inbox as [|i rest IH]; intros st Hdead Hall Hn;
    [cbn in Hn; lia|].
  inversion Hall as [|? ? Hi Hrest]; subst.
  pose proof (on_text_classified env i (after_receive websocket st)) as Hc.
  rewrite answered_cons in Hn.
  destruct (classify i) as [[|c]|]; [| |contradiction].
  - destruct Hc as (data & -> & Hrun). rewrite receive_loop_frame. run Hrun.
    now apply IH.
  - destruct Hc as (data & -> & Hrun). rewrite receive_loop_frame. run Hrun.
    set (st1 := after_send_message env c (after_receive websocket st)).
    destruct (receive_loop_classified env websocket rest st1 Hrest)
      as (st' & E & _).
    exists st'. split; [exact E|].
    replace st' with (snd (receive_loop env websocket rest st1))
      by now rewrite E.
    apply absent_kept. apply absent_after_answer, Hdead.
Qed.

(** X18. When no send to a session's connection succeeds, the pass for the
    first answered message takes the connection out of the registry,
    and the disconnect handler, which removes it once more, ends the
    endpoint with [ValueError]; the log keeps the conversation. *)
Theorem dead_session_raises_on_disconnect inbox st :
  (forall k, send_json_ok env k websocket = false) ->
  Forall (fun i => classify i <> None) inbox ->
  0 < answered inbox ->
  exists st',
    websocket_endpoint env websocket (inbox ++ [Disconnect]) st
    = (Raised ValueError, st')
    /\ ~ In websocket (active_connections st')
    /\ messages st' = messages st ++ conversation env (created st) inbox.
Proof.
  intros Hdead Hall Hn.
  set (st0 := with_connections st (active_connections st ++ [websocket])).
  destruct (absent_after_loop inbox st0 Hdead Hall Hn) as (st1 & E & Habs).
  destruct (receive_loop_classified env websocket inbox st0 Hall)
    as (st1' & E' & Hm & _).
  rewrite E in E'. injection E' as <-.
  exists st1. split; [|split; [exact Habs | exact Hm]].
  unfold websocket_endpoint.
  run (eq_refl : register websocket st = (Ok tt, st0)).
  unfold try_except.
  rewrite (receive_loop_then_disconnect env websocket inbox [] st0 st1 E).
  cbn [exn_eqb].
  erewrite bind_raised; [reflexivity|]. now apply unregister_absent.
Qed.

End DeadSession.

Lemma dead_session_raises_on_disconnect_sample :
  let inbox := [Sample.send_message "hello"]%string in
  (forall k, send_json_ok Sample.env k 2 = false)
  /\ Forall (fun i => classify i <> None) inbox
  /\ 0 < answered inbox
  /\ exists st',
       websocket_endpoint Sample.env 2 (inbox ++ [Disconnect])%list initial
       = (Raised ValueError, st')
       /\ List.length (messages st') = 2.
Proof.
  intros inbox.
  assert (H1 : forall k, send_json_ok Sample.env k 2 = false)
    by (intros k; reflexivity).
  assert (H2 : Forall (fun i => classify i <> None) inbox)
    by (repeat constructor; discriminate).
  assert (H3 : 0 < answered inbox) by (repeat constructor).
  split; [exact H1|]. split; [exact H2|]. split; [exact H3|].
  destruct (dead_session_raises_on_disconnect Sample.env 2 inbox initial
              H1 H2 H3) as (st' & E & _ & Hm).
  exists st'. rewrite Hm. split; [exact E | reflexivity].
Defined.
